(** * Live classroom engine: session registry, broadcast router, event stream
    generator and command dispatcher.

    Shallow embedding of
      - [app/services/live_teaching.py]   (class [LiveTeachingService])
      - [app/services/websocket_handler.py] (class [LiveClassroomManager])

    Python dicts keyed by strings or by socket handles are [gmap]s, Python
    sets of sockets are [gset]s (iterated through [elements]), JSON-shaped
    event dictionaries are association lists in insertion order, and the
    manager's methods live in a state-and-exception monad whose state
    survives a raise, as mutation of [self] does. *)

From Stdlib Require Import ZArith String Ascii List Bool Lia.
From stdpp Require Import base option list gmap fin_sets fin_maps strings.

Import ListNotations.
Local Open Scope string_scope.
Set Warnings "-register-all,-clear-no-such-hyp".

(** ** Python string primitives (ASCII code points) *)

Module PyStr.

(** [str.isspace] restricted to code points below 128. *)
Definition is_space (c : ascii) : bool :=
  let n := nat_of_ascii c in
  Nat.eqb n 32 || (Nat.leb 9 n && Nat.leb n 13) || (Nat.leb 28 n && Nat.leb n 31).

Definition eqb_ascii (a b : ascii) : bool := Ascii.eqb a b.

(** [c in s] for a one-character [c]. *)
Fixpoint contains_char (c : ascii) (s : string) : bool :=
  match s with
  | EmptyString => false
  | String a r => eqb_ascii a c || contains_char c r
  end.

Definition is_empty (s : string) : bool :=
  match s with EmptyString => true | _ => false end.

(** [s.split()]: maximal runs of non-whitespace characters. *)
Fixpoint split_go (cur : string) (s : string) : list string :=
  match s with
  | EmptyString => if is_empty cur then [] else [cur]
  | String a r =>
      if is_space a
      then (if is_empty cur then split_go EmptyString r
            else cur :: split_go EmptyString r)
      else split_go (cur ++ String a EmptyString) r
  end.

Definition split (s : string) : list string := split_go EmptyString s.

Definition lower_ascii (c : ascii) : ascii :=
  let n := nat_of_ascii c in
  if Nat.leb 65 n && Nat.leb n 90 then ascii_of_nat (n + 32) else c.

(** [s.lower()] *)
Fixpoint lower (s : string) : string :=
  match s with
  | EmptyString => EmptyString
  | String a r => String (lower_ascii a) (lower r)
  end.

Fixpoint rev_go (acc s : string) : string :=
  match s with
  | EmptyString => acc
  | String a r => rev_go (String a acc) r
  end.

Definition rev (s : string) : string := rev_go EmptyString s.

Fixpoint lstrip_by (p : ascii -> bool) (s : string) : string :=
  match s with
  | EmptyString => EmptyString
  | String a r => if p a then lstrip_by p r else s
  end.

Definition strip_by (p : ascii -> bool) (s : string) : string :=
  rev (lstrip_by p (rev (lstrip_by p s))).

(** [s.strip(chars)] *)
Definition strip_chars (chars : string) (s : string) : string :=
  strip_by (fun a => contains_char a chars) s.

(** [s.strip()] *)
Definition strip (s : string) : string := strip_by is_space s.

Fixpoint prefix (p s : string) : bool :=
  match p, s with
  | EmptyString, _ => true
  | String a p', String b s' => eqb_ascii a b && prefix p' s'
  | String _ _, EmptyString => false
  end.

(** Index of the first occurrence of [needle] in [s], counted from [pos]. *)
Fixpoint find_at (pos : Z) (needle s : string) : Z :=
  if prefix needle s then pos
  else match s with
       | EmptyString => (-1)%Z
       | String _ r => find_at (pos + 1) needle r
       end.

Fixpoint drop (n : nat) (s : string) : string :=
  match n, s with
  | O, _ => s
  | S n', String _ r => drop n' r
  | S _, EmptyString => EmptyString
  end.

Fixpoint take (n : nat) (s : string) : string :=
  match n, s with
  | S n', String a r => String a (take n' r)
  | _, _ => EmptyString
  end.

Definition len (s : string) : Z := Z.of_nat (String.length s).

(** [s.find(needle, start)] for [0 <= start]; [-1] when absent. *)
Definition find (needle s : string) (start : Z) : Z :=
  if (len s <? start)%Z then (-1)%Z
  else find_at start needle (drop (Z.to_nat start) s).

(** [needle in s] *)
Definition contains (needle s : string) : bool :=
  negb (find needle s 0 =? -1)%Z.

(** [s[i:j]] for non-negative [i], [j]. *)
Definition slice (s : string) (i j : Z) : string :=
  take (Z.to_nat (j - i)) (drop (Z.to_nat i) s).

Fixpoint concat_all (l : list string) : string :=
  match l with
  | [] => EmptyString
  | x :: r => x ++ concat_all r
  end.

End PyStr.

(** ** JSON values and dictionaries *)

(** Floats occur only as the fixed pause length and as event-loop clock
    readings; both are carried as a count of milliseconds. *)
Inductive json : Type :=
| JNull
| JBool (b : bool)
| JInt (z : Z)
| JFloat (millis : Z)
| JStr (s : string)
| JList (l : list json)
| JDict (d : list (string * json)).

(** A Python [dict] with string keys, in insertion order. *)
Abbreviation pydict := (list (string * json)).

Fixpoint dict_get (k : string) (d : pydict) : option json :=
  match d with
  | [] => None
  | (k', v) :: r => if String.eqb k' k then Some v else dict_get k r
  end.

(** [d.get(k)] *)
Definition get (d : pydict) (k : string) : json :=
  match dict_get k d with Some v => v | None => JNull end.

(** [d.get(k, dflt)] *)
Definition get_or (d : pydict) (k : string) (dflt : json) : json :=
  match dict_get k d with Some v => v | None => dflt end.

(** Python truthiness of a JSON value. *)
Definition truthy (v : json) : bool :=
  match v with
  | JNull => false
  | JBool b => b
  | JInt z => negb (z =? 0)%Z
  | JFloat z => negb (z =? 0)%Z
  | JStr s => negb (PyStr.is_empty s)
  | JList l => match l with [] => false | _ => true end
  | JDict d => match d with [] => false | _ => true end
  end.

Definition is_str (v : json) (s : string) : bool :=
  match v with JStr s' => String.eqb s' s | _ => false end.

(** [event.get("type") == t] *)
Definition has_type (t : string) (ev : pydict) : bool := is_str (get ev "type") t.

Abbreviation event := pydict.

(** ** Event stream generator: tables and cue extraction
    ([LiveTeachingService]) *)

Definition high_importance : list string :=
  [ "gravity"; "force"; "energy"; "mass"; "velocity"; "acceleration";
    "important"; "key"; "crucial"; "remember"; "note"; "formula";
    "equation"; "theorem"; "law"; "principle"; "concept" ].

Definition medium_importance : list string :=
  [ "example"; "because"; "therefore"; "however"; "although";
    "first"; "second"; "third"; "finally"; "result" ].

(** [word in table] *)
Definition in_table (w : string) (table : list string) : bool :=
  existsb (String.eqb w) table.

(** [_check_emphasis(word)] *)
Definition _check_emphasis (word : string) : option string :=
  let word_lower := PyStr.strip_chars ".,!?" (PyStr.lower word) in
  if in_table word_lower high_importance then Some "high"
  else if in_table word_lower medium_importance then Some "medium"
  else None.

Definition cue (action : string) (data : pydict) : pydict :=
  [ ("action", JStr action); ("data", JDict data) ].

Definition visual_triggers : list (string * pydict) :=
  [ ("falling", cue "animate" [("type", JStr "falling_object")]);
    ("dropping", cue "animate" [("type", JStr "falling_object")]);
    ("apple falls", cue "animate" [("type", JStr "apple_falling")]);
    ("pendulum", cue "animate" [("type", JStr "pendulum_swing")]);
    ("swings", cue "animate" [("type", JStr "pendulum_swing")]);
    ("wave", cue "animate" [("type", JStr "wave_motion")]);
    ("oscillate", cue "animate" [("type", JStr "oscillation")]);
    ("graph", cue "show_graph" [("type", JStr "function_graph")]);
    ("circle", cue "draw" [("type", JStr "circle")]);
    ("triangle", cue "draw" [("type", JStr "triangle")]);
    ("diagram", cue "show_diagram" [("type", JStr "generic")]) ].

(** The loop [for trigger, cue in visual_triggers.items()]: first hit wins. *)
Fixpoint first_trigger (table : list (string * pydict)) (sentence_lower : string)
  : option pydict :=
  match table with
  | [] => None
  | (trigger, c) :: r =>
      if PyStr.contains trigger sentence_lower then Some c
      else first_trigger r sentence_lower
  end.

(** The [[VISUAL: description]] branch of [_extract_visual_cue]; [None] when
    the branch falls through to the trigger table. *)
Definition inline_marker (sentence : string) : option pydict :=
  let sentence_lower := PyStr.lower sentence in
  if PyStr.contains "[visual:" sentence_lower then
    let start := (PyStr.find "[visual:" sentence_lower 0 + 8)%Z in
    let end_ := PyStr.find "]" sentence_lower start in
    if (end_ >? start)%Z then
      let description := PyStr.strip (PyStr.slice sentence start end_) in
      Some (cue "show_visual" [("description", JStr description)])
    else None
  else None.

(** [_extract_visual_cue(sentence)] *)
Definition _extract_visual_cue (sentence : string) : option pydict :=
  match inline_marker sentence with
  | Some c => Some c
  | None => first_trigger visual_triggers (PyStr.lower sentence)
  end.

(** ** Event dictionaries yielded by the generator *)

Definition start_event (question : json) : event :=
  [ ("type", JStr "start"); ("question", question); ("status", JStr "teaching") ].

Definition text_event (word : string) (now : Z) : event :=
  [ ("type", JStr "text"); ("content", JStr (word ++ " ")); ("timestamp", JFloat now) ].

Definition emphasis_event (word importance : string) : event :=
  [ ("type", JStr "emphasis"); ("word", JStr word); ("importance", JStr importance) ].

Definition visual_cue_event (visual_cue : pydict) : event :=
  [ ("type", JStr "visual_cue"); ("action", get visual_cue "action");
    ("data", get visual_cue "data") ].

(** [{"type": "pause", "duration": 0.3}] *)
Definition pause_event : event :=
  [ ("type", JStr "pause"); ("duration", JFloat 300) ].

(** The remaining buffer, yielded without trailing space or timestamp. *)
Definition flush_event (word_buffer : string) : event :=
  [ ("type", JStr "text"); ("content", JStr word_buffer) ].

Definition complete_event (full_text : string) : event :=
  [ ("type", JStr "complete"); ("full_text", JStr full_text); ("status", JStr "finished") ].

Definition error_event (message : string) : event :=
  [ ("type", JStr "error"); ("message", JStr message) ].

(** The Explanation Source as the generator sees it: the [delta.content] of
    each chunk the stream delivers, and, when the call or the iteration
    raises, the text of the exception raised after those chunks. *)
Record source : Type := Source {
  chunks : list (option string);
  failure : option string
}.

(** The three local buffers of [stream_explanation], and the number of words
    paced out so far (the index at which the loop clock is read). *)
Record buffers : Type := Buffers {
  full_text : string;
  current_sentence : string;
  word_buffer : string;
  paced : nat
}.

Definition initial_buffers : buffers := Buffers "" "" "" 0.

Definition space : ascii := ascii_of_nat 32.
Definition newline : ascii := ascii_of_nat 10.
Definition dot : ascii := ascii_of_nat 46.
Definition bang : ascii := ascii_of_nat 33.
Definition qmark : ascii := ascii_of_nat 63.

(** ['.' in s or '!' in s or '?' in s] *)
Definition has_terminator (s : string) : bool :=
  PyStr.contains_char dot s || PyStr.contains_char bang s || PyStr.contains_char qmark s.

(** [s.endswith(('.', '!', '?'))], the test the prose of the design uses. *)
Definition ends_in_terminator (s : string) : bool :=
  match PyStr.rev s with
  | String a _ => PyStr.eqb_ascii a dot || PyStr.eqb_ascii a bang || PyStr.eqb_ascii a qmark
  | EmptyString => false
  end.

(** [' ' in word_buffer or '\n' in word_buffer] *)
Definition has_word_break (s : string) : bool :=
  PyStr.contains_char space s || PyStr.contains_char newline s.

(** ** The manager's data *)

(** A socket handle; only its identity matters to the registry. *)
Abbreviation listener := nat (only parsing).

(** The value the manager stores under [session_states[session_id]]. The key
    ["is_paused"] is absent until the first pause or resume. *)
Record session_state : Type := SessionState {
  created_at : string;
  current_question : json;
  is_teaching : bool;
  participants : Z;
  is_paused : option bool
}.

(** The value stored under [user_data[websocket]]. *)
Record user_info : Type := UserInfo {
  user_id : option string;
  session_id : string;
  joined_at : string
}.

(** One call of [websocket.send_json]: the socket, the event, and whether the
    transport took it ([false]: the call raised). *)
Record delivery : Type := Delivery {
  to : listener;
  payload : event;
  delivered : bool
}.

(** The three tables of [LiveClassroomManager], and the trace of transport
    calls made so far. *)
Record manager : Type := Manager {
  active_sessions : gmap string (gset listener);
  session_states : gmap string session_state;
  user_data : gmap listener user_info;
  wire : list delivery
}.

Definition empty_manager : manager := Manager ∅ ∅ ∅ [].

Definition with_active (f : gmap string (gset listener) -> gmap string (gset listener))
  (m : manager) : manager :=
  Manager (f (active_sessions m)) (session_states m) (user_data m) (wire m).

Definition with_states (f : gmap string session_state -> gmap string session_state)
  (m : manager) : manager :=
  Manager (active_sessions m) (f (session_states m)) (user_data m) (wire m).

Definition with_users (f : gmap listener user_info -> gmap listener user_info)
  (m : manager) : manager :=
  Manager (active_sessions m) (session_states m) (f (user_data m)) (wire m).

Definition with_wire (f : list delivery -> list delivery) (m : manager) : manager :=
  Manager (active_sessions m) (session_states m) (user_data m) (f (wire m)).

Definition set_participants (f : Z -> Z) (s : session_state) : session_state :=
  SessionState (created_at s) (current_question s) (is_teaching s)
               (f (participants s)) (is_paused s).

Definition set_current_question (q : json) (s : session_state) : session_state :=
  SessionState (created_at s) q (is_teaching s) (participants s) (is_paused s).

Definition set_is_teaching (b : bool) (s : session_state) : session_state :=
  SessionState (created_at s) (current_question s) b (participants s) (is_paused s).

Definition set_is_paused (b : bool) (s : session_state) : session_state :=
  SessionState (created_at s) (current_question s) (is_teaching s)
               (participants s) (Some b).

(** ** A state monad with exceptions

    A raise leaves the mutations made before it in place. *)

Inductive exn : Type :=
| KeyError
| ChannelError      (* the transport refused an accept or a send *)
| RecursionError    (* the interpreter's frame limit was reached *)
| CollaboratorError (* the visual generator raised *).

Inductive outcome (A : Type) : Type :=
| Ok (a : A)
| Raise (e : exn).
Arguments Ok {A} a.
Arguments Raise {A} e.

Definition M (A : Type) : Type := manager -> outcome A * manager.

Definition ret {A} (a : A) : M A := fun m => (Ok a, m).

Definition bind {A B} (c : M A) (k : A -> M B) : M B :=
  fun m => match c m with
           | (Ok a, m') => k a m'
           | (Raise e, m') => (Raise e, m')
           end.

Definition raise {A} (e : exn) : M A := fun m => (Raise e, m).

(** [try: body / except Exception: handler] *)
Definition try_except {A} (body : M A) (handler : exn -> M A) : M A :=
  fun m => match body m with
           | (Ok a, m') => (Ok a, m')
           | (Raise e, m') => handler e m'
           end.

Definition gets {A} (f : manager -> A) : M A := fun m => (Ok (f m), m).
Definition modify (f : manager -> manager) : M unit := fun m => (Ok tt, f m).

Declare Scope py_scope.
Delimit Scope py_scope with py.
Notation "x <- c ;; k" := (bind c (fun x => k))
  (at level 100, c at next level, right associativity) : py_scope.
Notation "c ;; k" := (bind c (fun _ => k))
  (at level 100, right associativity) : py_scope.
Local Open Scope py_scope.

(** [for x in l: body(x)] *)
Fixpoint for_each {A} (l : list A) (body : A -> M unit) : M unit :=
  match l with
  | [] => ret tt
  | x :: r => body x ;; for_each r body
  end.

(** The state a computation leaves behind, and how it ended. *)
Definition exec {A} (c : M A) (m : manager) : manager := snd (c m).
Definition result {A} (c : M A) (m : manager) : outcome A := fst (c m).

(** [self.session_states[sid]] as an rvalue: [KeyError] when absent. *)
Definition read_state (sid : string) : M session_state :=
  fun m => match session_states m !! sid with
           | Some s => (Ok s, m)
           | None => (Raise KeyError, m)
           end.

(** [self.session_states[sid][field] = ...] *)
Definition update_state (sid : string) (f : session_state -> session_state) : M unit :=
  s <- read_state sid ;; modify (with_states (insert sid (f s))).

(** [self.active_sessions[sid]] as an rvalue. *)
Definition read_listeners (sid : string) : M (gset listener) :=
  fun m => match active_sessions m !! sid with
           | Some L => (Ok L, m)
           | None => (Raise KeyError, m)
           end.

(** [del d[k]]: [KeyError] when the key is absent. *)
Definition del_state (sid : string) : M unit :=
  _ <- read_state sid ;; modify (with_states (delete sid)).

Definition del_listeners (sid : string) : M unit :=
  _ <- read_listeners sid ;; modify (with_active (delete sid)).

Definition del_user (ws : listener) : M unit :=
  fun m => match user_data m !! ws with
           | Some _ => (Ok tt, with_users (delete ws) m)
           | None => (Raise KeyError, m)
           end.

(** ** Events built by the manager *)

Definition connected_event (sid : string) (n : Z) : event :=
  [ ("type", JStr "connected"); ("session_id", JStr sid);
    ("message", JStr "Welcome to the live classroom!"); ("participants", JInt n) ].

Definition user_joined_event (n : Z) : event :=
  [ ("type", JStr "user_joined"); ("participants", JInt n) ].

Definition user_left_event (n : Z) : event :=
  [ ("type", JStr "user_left"); ("participants", JInt n) ].

Definition question_required_event : event :=
  [ ("type", JStr "error"); ("message", JStr "Question is required") ].

Definition teaching_start_event (question subject : json) : event :=
  [ ("type", JStr "teaching_start"); ("question", question); ("subject", subject) ].

Definition teaching_end_event : event :=
  [ ("type", JStr "teaching_end");
    ("message", JStr "Explanation complete. Feel free to ask follow-up questions!") ].

Definition teaching_error_event : event :=
  [ ("type", JStr "error"); ("message", JStr "An error occurred during teaching") ].

Definition visual_failed_event : event :=
  [ ("type", JStr "error"); ("message", JStr "Failed to generate visual") ].

Definition session_paused_event : event :=
  [ ("type", JStr "session_paused"); ("message", JStr "Session paused") ].

Definition session_resumed_event : event :=
  [ ("type", JStr "session_resumed"); ("message", JStr "Session resumed") ].

Definition feedback_received_event : event :=
  [ ("type", JStr "feedback_received"); ("message", JStr "Thank you for your feedback!") ].

Definition xy (x y : Z) : json := JDict [("x", JInt x); ("y", JInt y)].

(** The table inside [_get_animation_data]. *)
Definition animations : list (string * pydict) :=
  [ ("falling_object",
      [ ("name", JStr "Falling Object"); ("duration", JInt 2000);
        ("objects", JList [ JDict [ ("type", JStr "circle");
                                    ("start", xy 50 10); ("end", xy 50 90) ] ]);
        ("easing", JStr "easeInQuad") ]);
    ("apple_falling",
      [ ("name", JStr "Apple Falling"); ("duration", JInt 2000);
        ("objects", JList [ JDict [ ("type", JStr "apple");
                                    ("start", xy 50 20); ("end", xy 50 85) ] ]);
        ("easing", JStr "easeInQuad"); ("show_force_arrow", JBool true) ]);
    ("pendulum_swing",
      [ ("name", JStr "Pendulum"); ("duration", JInt 3000); ("type", JStr "pendulum");
        ("pivot", xy 50 10); ("length", JInt 60); ("amplitude", JInt 45) ]);
    ("wave_motion",
      [ ("name", JStr "Wave"); ("duration", JInt 4000); ("type", JStr "sine_wave");
        ("amplitude", JInt 30); ("wavelength", JInt 50); ("speed", JInt 2) ]);
    ("oscillation",
      [ ("name", JStr "Oscillation"); ("duration", JInt 3000); ("type", JStr "spring");
        ("equilibrium", JInt 50); ("amplitude", JInt 30) ]) ].

Definition generic_animation : pydict :=
  [ ("name", JStr "Generic"); ("duration", JInt 2000) ].

Fixpoint table_get (k : string) (t : list (string * pydict)) : option pydict :=
  match t with
  | [] => None
  | (k', v) :: r => if String.eqb k' k then Some v else table_get k r
  end.

(** [_get_animation_data(anim_type)] *)
Definition _get_animation_data (anim_type : json) : pydict :=
  match anim_type with
  | JStr name => match table_get name animations with
                 | Some d => d
                 | None => generic_animation
                 end
  | _ => generic_animation
  end.

(** The dictionary under a JSON value; the events of [stream_explanation]
    always carry a dictionary as ["data"]. *)
Definition as_dict (v : json) : pydict :=
  match v with JDict d => d | _ => [] end.

(** [_process_visual_cue(event)] *)
Definition _process_visual_cue (ev : event) : option event :=
  let data := as_dict (get_or ev "data" (JDict [])) in
  let action := get ev "action" in
  if is_str action "animate" then
    let anim_type := get data "type" in
    Some [ ("type", JStr "visual_update"); ("visual_type", JStr "animation");
           ("animation", anim_type); ("data", JDict (_get_animation_data anim_type)) ]
  else if is_str action "show_visual" then
    Some [ ("type", JStr "visual_update"); ("visual_type", JStr "image");
           ("description", get data "description") ]
  else None.

(** A registry operation, as the connection layer issues them. *)
Inductive op : Type :=
| Connect (websocket : listener) (sid : string) (uid : option string)
| Disconnect (websocket : listener).

(** ** Sample worlds, for running the services on concrete inputs *)

Definition steady_clock : nat -> Z := Z.of_nat.

Definition fixed_date : nat -> string := fun _ => "2024-01-01T00:00:00".

(** A source that delivers the given fragments and ends normally. *)
Definition says (fragments : list (option string)) : json -> json -> source :=
  fun _ _ => Source fragments None.

Definition no_visuals : json -> json -> option pydict := fun _ _ => None.

Definition plain_str (v : json) : string :=
  match v with JStr s => s | _ => "None" end.

(** Every channel works. *)
Definition all_open : nat -> listener -> bool := fun _ _ => true.

(** The channel of [ws] is broken, the others work. *)
Definition closed_for (ws : listener) : nat -> listener -> bool :=
  fun _ w => negb (Nat.eqb w ws).

(** Every channel works for the first [k] transport calls and is broken
    from then on. *)
Definition open_until (k : nat) : nat -> listener -> bool :=
  fun i _ => Nat.ltb i k.

Definition accepts_all : listener -> bool := fun _ => true.

Definition ask (question : string) : pydict :=
  [ ("type", JStr "ask_question"); ("question", JStr question) ].

(** ** The two services, over the collaborators they call *)

Section World.

Set Default Proof Using "Type".

(** [asyncio.get_event_loop().time()], read when the [k]-th word of a run
    is yielded. *)
Context (loop_time : nat -> Z).
(** [datetime.utcnow().isoformat()], read after [k] transport calls. *)
Context (utcnow : nat -> string).
(** The Explanation Source for a question and a subject. *)
Context (explanation_source : json -> json -> source).
(** [visual_service.generate_visual] for a concept and a visual type;
    [None] when it raises. *)
Context (generate_visual : json -> json -> option pydict).
(** [str(v)] inside the f-string of [handle_visual_request]. *)
Context (py_str : json -> string).
(** Whether the transport takes the [k]-th call when it is a send to [ws]. *)
Context (send_ok : nat -> listener -> bool).
(** Whether [websocket.accept()] succeeds. *)
Context (accept_ok : listener -> bool).
(** How deep [disconnect] may nest before the interpreter raises. *)
Context (recursion_limit : nat).

(** Proofs about one service do not look at the collaborators of the
    other. *)
Ltac forget_world :=
  try clear loop_time; try clear utcnow; try clear explanation_source;
  try clear generate_visual; try clear py_str; try clear accept_ok;
  try clear send_ok; try clear recursion_limit.

(** *** [LiveTeachingService.stream_explanation] *)

(** The body of [for word in words[:-1]]. *)
Fixpoint emit_words (k : nat) (words : list string) : list event :=
  match words with
  | [] => []
  | word :: r =>
      (text_event word (loop_time k)
       :: match _check_emphasis word with
          | Some emphasis => [emphasis_event word emphasis]
          | None => []
          end
       ++ emit_words (S k) r)%list
  end.

(** The word-pacing block: what it yields, the new [word_buffer] and the
    new count of paced words. *)
Definition pace_words (word_buffer : string) (k : nat)
  : list event * string * nat :=
  if has_word_break word_buffer then
    let words := PyStr.split word_buffer in
    (emit_words k (List.removelast words), List.last words "",
     (k + length (List.removelast words))%nat)
  else ([], word_buffer, k).

(** The sentence block: what it yields and the new [current_sentence]. *)
Definition close_sentence (current_sentence : string) : list event * string :=
  if has_terminator current_sentence then
    ((match _extract_visual_cue current_sentence with
      | Some visual_cue => [visual_cue_event visual_cue]
      | None => []
      end ++ [pause_event])%list, "")
  else ([], current_sentence).

(** One iteration of [async for chunk in stream] with a truthy content. *)
Definition process_chunk (b : buffers) (content : string) : list event * buffers :=
  let full := full_text b ++ content in
  let wb := word_buffer b ++ content in
  let cs := current_sentence b ++ content in
  let '(word_events, wb', k') := pace_words wb (paced b) in
  let '(sentence_events, cs') := close_sentence cs in
  ((word_events ++ sentence_events)%list, Buffers full cs' wb' k').

(** What follows the loop: the flush and the completion event. *)
Definition finish (b : buffers) : list event :=
  ((if PyStr.is_empty (word_buffer b) then [] else [flush_event (word_buffer b)])
   ++ [complete_event (full_text b)])%list.

(** The loop and its two exits: exhaustion, or the [except] clause. *)
Fixpoint stream_loop (cs : list (option string)) (fail : option string) (b : buffers)
  : list event :=
  match cs with
  | [] => match fail with
          | Some message => [error_event message]
          | None => finish b
          end
  | Some content :: r =>
      if PyStr.is_empty content then stream_loop r fail b
      else let '(evs, b') := process_chunk b content in
           (evs ++ stream_loop r fail b')%list
  | None :: r => stream_loop r fail b
  end.

(** The events one run yields, in order. *)
Definition stream_explanation (question subject : json) : list event :=
  let src := explanation_source question subject in
  start_event question :: stream_loop (chunks src) (failure src) initial_buffers.

(** *** [LiveClassroomManager] *)

(** [await websocket.send_json(message)] *)
Definition send_json (ws : listener) (message : event) : M unit :=
  fun m =>
    let ok := send_ok (length (wire m)) ws in
    (if ok then Ok tt else Raise ChannelError,
     with_wire (fun w => (w ++ [Delivery ws message ok])%list) m).

(** [await websocket.accept()] *)
Definition accept (ws : listener) : M unit :=
  if accept_ok ws then ret tt else raise ChannelError.

(** The first loop of [broadcast_to_session]; returns [disconnected]. *)
Fixpoint fan_out (targets : list listener) (message : event) (exclude : option listener)
  : M (list listener) :=
  match targets with
  | [] => ret []
  | websocket :: r =>
      if decide (Some websocket = exclude) then fan_out r message exclude
      else
        failed <- try_except (send_json websocket message ;; ret [])
                             (fun _ => ret [websocket]) ;;
        rest <- fan_out r message exclude ;;
        ret (failed ++ rest)%list
  end.

(** [broadcast_to_session], over the [disconnect] it calls back into. *)
Definition broadcast_with (disconnect : listener -> M unit)
  (sid : string) (message : event) (exclude : option listener) : M unit :=
  fun m =>
    match active_sessions m !! sid with
    | None => (Ok tt, m)
    | Some L =>
        (disconnected <- fan_out (elements L) message exclude ;;
         for_each disconnected disconnect) m
    end.

(** [disconnect], with [depth] frames left. *)
Fixpoint disconnect_at (depth : nat) (websocket : listener) : M unit :=
  match depth with
  | O => raise RecursionError
  | S d =>
      fun m =>
        match user_data m !! websocket with
        | None => (Ok tt, m)
        | Some info =>
            let sid := session_id info in
            ((match active_sessions m !! sid with
              | Some L =>
                  modify (with_active (insert sid (L ∖ {[websocket]}))) ;;
                  update_state sid (set_participants (fun n => n - 1)%Z) ;;
                  L' <- read_listeners sid ;;
                  if decide (L' = ∅) then
                    del_listeners sid ;; del_state sid
                  else
                    s <- read_state sid ;;
                    broadcast_with (disconnect_at d) sid
                      (user_left_event (participants s)) None
              | None => ret tt
              end) ;;
             del_user websocket) m
        end
  end.

Definition disconnect : listener -> M unit := disconnect_at recursion_limit.

Definition broadcast_to_session : string -> event -> option listener -> M unit :=
  broadcast_with disconnect.

Definition new_session_state (now : string) : session_state :=
  SessionState now JNull false 0 None.

(** The first half of [connect]: the session is created if need be, the
    socket is added to its set and to [user_data], and is counted. *)
Definition enroll (websocket : listener) (sid : string) (uid : option string)
  : M unit :=
  (fun m =>
     match active_sessions m !! sid with
     | None =>
         (Ok tt,
          with_states (insert sid (new_session_state (utcnow (length (wire m)))))
            (with_active (insert sid ∅) m))
     | Some _ => (Ok tt, m)
     end) ;;
  L <- read_listeners sid ;;
  modify (with_active (insert sid ({[websocket]} ∪ L))) ;;
  (fun m => (Ok tt,
             with_users (insert websocket
                           (UserInfo uid sid (utcnow (length (wire m))))) m)) ;;
  update_state sid (set_participants (fun n => n + 1)%Z).

(** The second half: the welcome message, then the notice to the others. *)
Definition welcome (websocket : listener) (sid : string) : M unit :=
  s <- read_state sid ;;
  send_json websocket (connected_event sid (participants s)) ;;
  s <- read_state sid ;;
  broadcast_to_session sid (user_joined_event (participants s)) (Some websocket).

Definition connect (websocket : listener) (sid : string) (uid : option string)
  : M unit :=
  accept websocket ;;
  enroll websocket sid uid ;;
  welcome websocket sid.

(** The body of [async for event in stream_explanation(...)]. *)
Definition relay (sid : string) (ev : event) : M unit :=
  broadcast_to_session sid ev None ;;
  if has_type "visual_cue" ev then
    match _process_visual_cue ev with
    | Some visual_event => broadcast_to_session sid visual_event None
    | None => ret tt
    end
  else ret tt.

Definition handle_question (websocket : listener) (sid : string) (message : pydict)
  : M unit :=
  let question := get_or message "question" (JStr "") in
  let subject := get message "subject" in
  if negb (truthy question) then
    send_json websocket question_required_event
  else
    update_state sid (set_current_question question) ;;
    update_state sid (set_is_teaching true) ;;
    broadcast_to_session sid (teaching_start_event question subject) None ;;
    try_except
      (for_each (stream_explanation question subject) (relay sid) ;;
       update_state sid (set_is_teaching false) ;;
       broadcast_to_session sid teaching_end_event None)
      (fun _ =>
         broadcast_to_session sid teaching_error_event None ;;
         update_state sid (set_is_teaching false)).

Definition handle_visual_request (websocket : listener) (sid : string)
  (message : pydict) : M unit :=
  let visual_type := get_or message "visual_type" (JStr "animation") in
  let concept := get_or message "concept" (JStr "") in
  broadcast_to_session sid
    [ ("type", JStr "visual_loading");
      ("message", JStr ("Generating " ++ py_str visual_type ++ " for "
                        ++ py_str concept ++ "...")) ] None ;;
  try_except
    (match generate_visual concept visual_type with
     | Some res =>
         broadcast_to_session sid
           [ ("type", JStr "visual_ready"); ("visual_type", get res "visual_type");
             ("url", get res "url"); ("concept", concept) ] None
     | None => raise CollaboratorError
     end)
    (fun _ => send_json websocket visual_failed_event).

Definition handle_pause (sid : string) : M unit :=
  update_state sid (set_is_paused true) ;;
  broadcast_to_session sid session_paused_event None.

Definition handle_resume (sid : string) : M unit :=
  update_state sid (set_is_paused false) ;;
  broadcast_to_session sid session_resumed_event None.

Definition handle_feedback (websocket : listener) (message : pydict) : M unit :=
  send_json websocket feedback_received_event.

Definition json_of_user_id (u : option string) : json :=
  match u with Some s => JStr s | None => JNull end.

Definition handle_chat (websocket : listener) (sid : string) (message : pydict)
  : M unit :=
  fun m =>
    let sender := match user_data m !! websocket with
                  | Some info => json_of_user_id (user_id info)
                  | None => JStr "anonymous"
                  end in
    let chat_message := get_or message "message" (JStr "") in
    broadcast_to_session sid
      [ ("type", JStr "chat_message"); ("user_id", sender);
        ("message", chat_message);
        ("timestamp", JStr (utcnow (length (wire m)))) ] None m.

Definition handle_message (websocket : listener) (message : pydict) : M unit :=
  fun m =>
    match user_data m !! websocket with
    | None => (Ok tt, m)
    | Some info =>
        let sid := session_id info in
        let msg_type := get message "type" in
        (if is_str msg_type "ask_question" then handle_question websocket sid message
         else if is_str msg_type "request_visual" then
                handle_visual_request websocket sid message
         else if is_str msg_type "pause" then handle_pause sid
         else if is_str msg_type "resume" then handle_resume sid
         else if is_str msg_type "feedback" then handle_feedback websocket message
         else if is_str msg_type "chat" then handle_chat websocket sid message
         else ret tt) m
    end.

(** *** Traces of registry operations *)

Definition run_op (o : op) : M unit :=
  match o with
  | Connect ws sid uid => connect ws sid uid
  | Disconnect ws => disconnect ws
  end.

(** The operations one after another; an operation that raises leaves its
    partial effect and the caller goes on to the next one. *)
Fixpoint run_ops (ops : list op) (m : manager) : manager :=
  match ops with
  | [] => m
  | o :: r => run_ops r (exec (run_op o) m)
  end.

(** *** Notions the properties are stated with *)

(** The buffers once the loop has gone through [cs]. *)
Fixpoint buffers_after (cs : list (option string)) (b : buffers) : buffers :=
  match cs with
  | [] => b
  | Some content :: r =>
      if PyStr.is_empty content then buffers_after r b
      else buffers_after r (snd (process_chunk b content))
  | None :: r => buffers_after r b
  end.

(** Every fragment the source delivered, in order, as one text. *)
Fixpoint joined (cs : list (option string)) : string :=
  match cs with
  | [] => ""
  | Some content :: r => content ++ joined r
  | None :: r => joined r
  end.

Definition is_terminal (ev : event) : bool :=
  has_type "complete" ev || has_type "error" ev.

Definition is_sentence_mark (ev : event) : bool :=
  has_type "visual_cue" ev || has_type "pause" ev.

(** Following the design's words, with "contains" for "ends in": the
    sentence buffer alone decides where a cue scan and a pause happen. At
    each fragment the buffer grows; when it then contains a terminator it
    yields the cue found in it, if any, and a pause, and starts afresh. *)
Fixpoint sentence_marks (cs : list (option string)) (sentence : string) : list event :=
  match cs with
  | [] => []
  | Some content :: r =>
      if PyStr.is_empty content then sentence_marks r sentence
      else
        let s := sentence ++ content in
        if has_terminator s then
          (match _extract_visual_cue s with
           | Some c => [visual_cue_event c]
           | None => []
           end ++ pause_event :: sentence_marks r "")%list
        else sentence_marks r s
  | None :: r => sentence_marks r sentence
  end.

(** What the dispatcher puts on the air for the events of one run. *)
Definition relayed (evs : list event) : list event :=
  flat_map (fun ev =>
              ev :: (if has_type "visual_cue" ev
                     then match _process_visual_cue ev with
                          | Some visual_event => [visual_event]
                          | None => []
                          end
                     else [])) evs.

(** One event to each of [targets], all taken by the transport. *)
Definition deliveries (targets : list listener) (ev : event) : list delivery :=
  map (fun ws => Delivery ws ev true) targets.

(** The registry's representation invariant. [pending] holds the sockets
    whose [disconnect] has already taken them out of their session but has
    not yet reached [del self.user_data[websocket]]. *)
Record registry_ok (pending : gset listener) (m : manager) : Prop := RegistryOk {
  ok_counted : forall sid L,
    active_sessions m !! sid = Some L ->
    exists s, session_states m !! sid = Some s /\ participants s = Z.of_nat (size L);
  ok_tracked : forall sid s,
    session_states m !! sid = Some s -> is_Some (active_sessions m !! sid);
  ok_nonempty : forall sid L,
    active_sessions m !! sid = Some L -> L <> ∅;
  ok_members : forall sid L ws,
    active_sessions m !! sid = Some L -> ws ∈ L ->
    (ws ∉ pending) /\
    (exists info, user_data m !! ws = Some info /\ session_id info = sid);
  ok_users : forall ws info,
    user_data m !! ws = Some info -> ws ∉ pending ->
    exists L, active_sessions m !! session_id info = Some L /\ ws ∈ L;
  ok_pending : forall ws, ws ∈ pending -> is_Some (user_data m !! ws)
}.

(** Every [Connect] of the trace brings a socket that is not registered
    when it arrives. *)
Fixpoint fresh_connects (ops : list op) (m : manager) : Prop :=
  match ops with
  | [] => True
  | o :: r =>
      match o with
      | Connect ws _ _ => user_data m !! ws = None
      | Disconnect _ => True
      end /\ fresh_connects r (exec (run_op o) m)
  end.

(** At every call of the trace the sockets registered at that moment, and
    the one a [Connect] adds, are fewer than the frames the interpreter
    allows: [disconnect] and [broadcast_to_session] call each other once
    for every registered socket whose channel turns out to be broken. *)
Fixpoint within_budget (ops : list op) (m : manager) : Prop :=
  match ops with
  | [] => True
  | o :: r =>
      match o with
      | Connect _ _ _ => S (size (user_data m)) < recursion_limit
      | Disconnect _ => size (user_data m) < recursion_limit
      end /\ within_budget r (exec (run_op o) m)
  end.

(** The manager after the transport calls [ds] have been made. *)
Definition on_air (m : manager) (ds : list delivery) : manager :=
  with_wire (fun w => (w ++ ds)%list) m.

(** The transport calls of one fan-out pass over [targets] that starts
    when [k] calls have been made: one per socket other than [exclude]. *)
Fixpoint attempts (k : nat) (targets : list listener) (ev : event)
  (exclude : option listener) : list delivery :=
  match targets with
  | [] => []
  | ws :: r =>
      if decide (Some ws = exclude) then attempts k r ev exclude
      else Delivery ws ev (send_ok k ws) :: attempts (S k) r ev exclude
  end.

(** The sockets whose call raised. *)
Definition failed (ds : list delivery) : list listener :=
  map to (List.filter (fun d => negb (delivered d)) ds).

(** The two [visual_update] dictionaries [_process_visual_cue] builds. *)
Definition animation_update (anim_type : json) : event :=
  [ ("type", JStr "visual_update"); ("visual_type", JStr "animation");
    ("animation", anim_type); ("data", JDict (_get_animation_data anim_type)) ].

Definition image_update (description : json) : event :=
  [ ("type", JStr "visual_update"); ("visual_type", JStr "image");
    ("description", description) ].

(** What a well-behaved [disconnect] with [d] frames left does. *)
Definition removes_safely (d : nat) (disc : listener -> M unit) : Prop :=
  forall P ws m,
    registry_ok P m -> ws ∉ P -> size (user_data m) < d + size P ->
    exists m',
      disc ws m = (Ok tt, m') /\
      registry_ok P m' /\
      user_data m' ⊆ user_data m /\
      user_data m' !! ws = None /\
      exists later, wire m' = (wire m ++ later)%list.

(** *** [LiveTeachingService.stream_with_audio] *)

(** [text_buffer.endswith(('.', '!', '?', '\n'))] *)
Definition ends_sentence (s : string) : bool :=
  match PyStr.rev s with
  | String a _ =>
      PyStr.eqb_ascii a dot || PyStr.eqb_ascii a bang
      || PyStr.eqb_ascii a qmark || PyStr.eqb_ascii a newline
  | EmptyString => false
  end.

(** [event["content"]] of a [text] event. *)
Definition content_of (ev : event) : string :=
  match get ev "content" with JStr s => s | _ => "" end.

(** The audio bytes travel as a string. *)
Definition audio_event (data text : string) : event :=
  [ ("type", JStr "audio"); ("data", JStr data); ("text", JStr text) ].

(** What follows [yield event] for a [text] event that completes a
    sentence: the audio of the buffered text, when a key is configured and
    the synthesis returns a non-empty chunk. *)
Definition audio_for (api_key voice : string)
  (_generate_audio_chunk : string -> string -> option string)
  (text_buffer : string) : list event :=
  if PyStr.is_empty api_key then []
  else match _generate_audio_chunk text_buffer voice with
       | Some audio_chunk =>
           if PyStr.is_empty audio_chunk then []
           else [audio_event audio_chunk text_buffer]
       | None => []
       end.

(** The body of [async for event in self.stream_explanation(...)], with
    [text_buffer] threaded through. *)
Fixpoint audio_loop (api_key voice : string)
  (_generate_audio_chunk : string -> string -> option string)
  (evs : list event) (text_buffer : string) : list event :=
  match evs with
  | [] => []
  | ev :: r =>
      if has_type "text" ev then
        let text_buffer' := text_buffer ++ content_of ev in
        if ends_sentence text_buffer' then
          (ev :: audio_for api_key voice _generate_audio_chunk text_buffer'
           ++ audio_loop api_key voice _generate_audio_chunk r "")%list
        else ev :: audio_loop api_key voice _generate_audio_chunk r text_buffer'
      else ev :: audio_loop api_key voice _generate_audio_chunk r text_buffer
  end.

(** [stream_with_audio(question, subject, voice_id)], over
    [settings.ELEVENLABS_API_KEY], [settings.ELEVENLABS_VOICE_ID] and the
    synthesis call ([None]: it raised or did not answer 200). *)
Definition stream_with_audio (api_key default_voice : string)
  (_generate_audio_chunk : string -> string -> option string)
  (question subject : json) (voice_id : option string) : list event :=
  let voice := match voice_id with
               | Some v => if PyStr.is_empty v then default_voice else v
               | None => default_voice
               end in
  audio_loop api_key voice _generate_audio_chunk
    (stream_explanation question subject) "".

(** *** The routes of [api/routes/live_classroom.py] *)

(** [classroom_websocket], for a client that sends [inbox] and then goes
    away: [receive_json] then raises, which ends the [while True] loop. *)
Definition classroom_websocket (websocket : listener) (sid : string)
  (uid : option string) (inbox : list pydict) : M unit :=
  connect websocket sid uid ;;
  try_except
    (for_each inbox (handle_message websocket) ;; raise ChannelError)
    (fun _ => disconnect websocket).

(** One turn of the loop of [quick_teach_websocket]. *)
Definition quick_teach_turn (websocket : listener) (data : pydict) : M unit :=
  let question := get data "question" in
  let subject := get data "subject" in
  if negb (truthy question) then send_json websocket question_required_event
  else for_each (stream_explanation question subject) (send_json websocket).

(** [quick_teach_websocket], for a client that sends [inbox] and then goes
    away. Both [except] clauses only log. *)
Definition quick_teach_websocket (websocket : listener) (inbox : list pydict)
  : M unit :=
  accept websocket ;;
  try_except
    (for_each inbox (quick_teach_turn websocket) ;; raise ChannelError)
    (fun _ => ret tt).

(** [get_session_status(session_id)] *)
Definition get_session_status (sid : string) (m : manager) : pydict :=
  match session_states m !! sid with
  | None =>
      [ ("session_id", JStr sid); ("active", JBool false);
        ("message", JStr "Session not found or inactive") ]
  | Some state =>
      [ ("session_id", JStr sid); ("active", JBool true);
        ("participants", JInt (participants state));
        ("is_teaching", JBool (is_teaching state));
        ("current_question", current_question state);
        ("created_at", JStr (created_at state)) ]
  end.

(** *** Further notions *)

(** A computation that keeps the registry consistent and registers nobody,
    however it ends. *)
Definition keeps_registry {A} (c : M A) : Prop :=
  forall m,
    registry_ok ∅ m -> size (user_data m) < recursion_limit ->
    registry_ok ∅ (snd (c m)) /\ user_data (snd (c m)) ⊆ user_data m.

(** The command types [handle_message] dispatches on. *)
Definition known_commands : list string :=
  [ "ask_question"; "request_visual"; "pause"; "resume"; "feedback"; "chat" ].

(** No character of [s] is whitespace. *)
Fixpoint spaceless (s : string) : bool :=
  match s with
  | EmptyString => true
  | String a r => negb (PyStr.is_space a) && spaceless r
  end.

(** The sockets a fan-out with [exclude] reaches. *)
Definition others (exclude : option listener) (targets : list listener)
  : list listener :=
  List.filter (fun ws => bool_decide (Some ws <> exclude)) targets.

(** The text the run has put into [text] events, in order. *)
Fixpoint spoken (evs : list event) : string :=
  match evs with
  | [] => ""
  | ev :: r => if has_type "text" ev then content_of ev ++ spoken r else spoken r
  end.

(** An event of the pacing loop, as [stream_with_audio] sees it: not an
    [audio] event, and if a [text] event then one that ends in a space. *)
Definition paced_or_silent (ev : event) : Prop :=
  has_type "audio" ev = false /\
  (has_type "text" ev = true -> exists w, content_of ev = w ++ " ").

(** Every character of [s] satisfies [p]. *)
Fixpoint all_chars (p : ascii -> bool) (s : string) : bool :=
  match s with
  | EmptyString => true
  | String a r => p a && all_chars p r
  end.

(** [s] consists of the characters [_check_emphasis] strips. *)
Definition is_punctuation (s : string) : bool :=
  all_chars (fun a => PyStr.contains_char a ".,!?") s.

(** A computation that changes no table and makes transport calls to [ws]
    only. *)
Definition private_to (ws : listener) {A} (c : M A) : Prop :=
  forall m, exists sends,
    snd (c m) = on_air m sends /\ Forall (fun d => to d = ws) sends.

(** What one turn of the quick-teach loop sends when the channel works. *)
Definition quick_answer (data : pydict) : list event :=
  if truthy (get data "question")
  then stream_explanation (get data "question") (get data "subject")
  else [question_required_event].

(** The [chat_message] event of [handle_chat]. *)
Definition chat_message_event (sender text : json) (now : string) : event :=
  [ ("type", JStr "chat_message"); ("user_id", sender);
    ("message", text); ("timestamp", JStr now) ].

(** The two broadcasts of [handle_visual_request]. *)
Definition visual_loading_event (visual_type concept : json) : event :=
  [ ("type", JStr "visual_loading");
    ("message", JStr ("Generating " ++ py_str visual_type ++ " for "
                      ++ py_str concept ++ "...")) ].

Definition visual_ready_event (res : pydict) (concept : json) : event :=
  [ ("type", JStr "visual_ready"); ("visual_type", get res "visual_type");
    ("url", get res "url"); ("concept", concept) ].

(** In [evs] every [visual_cue] is directly followed by the pause event. *)
Fixpoint cue_then_pause (evs : list event) : Prop :=
  match evs with
  | [] => True
  | ev :: r =>
      (has_type "visual_cue" ev = true ->
       exists r', r = pause_event :: r') /\ cue_then_pause r
  end.

(** *** Properties of the command dispatcher's guards *)

(** C10: a command from a socket that is not in [user_data] is dropped:
    whatever its type, [handle_message] returns normally, the three tables
    are what they were and no transport call has been made. *)
Theorem handle_message_unregistered (websocket : listener) (message : pydict)
  (m : manager) :
  user_data m !! websocket = None ->
  handle_message websocket message m = (Ok tt, m).
Proof.
  intros Hnone. unfold handle_message. now rewrite Hnone.
Qed.

(** C9: [disconnect] of a socket that is not registered returns normally
    and changes nothing: no table entry, no participant count, no
    transport call. *)
Theorem disconnect_unregistered (websocket : listener) (m : manager) :
  recursion_limit <> 0 ->
  user_data m !! websocket = None ->
  disconnect websocket m = (Ok tt, m).
Proof.
  intros Hlimit Hnone. unfold disconnect.
  destruct recursion_limit as [|d]; [congruence|].
  simpl. now rewrite Hnone.
Qed.

Lemma disconnect_at_unregisters (d : nat) (websocket : listener) (m m' : manager) :
  disconnect_at d websocket m = (Ok tt, m') ->
  user_data m' !! websocket = None.
Proof.
  destruct d as [|d]; simpl; [discriminate|].
  destruct (user_data m !! websocket) as [info|] eqn:Hreg.
  - unfold bind at 1.
    match goal with |- context [match ?c m with _ => _ end] => destruct (c m) as [[[]|e] m1] end;
      [|discriminate].
    unfold del_user. destruct (user_data m1 !! websocket); [|discriminate].
    intros [= <-]. simpl. apply lookup_delete_eq.
  - now intros [= <-].
Qed.

(** A second [disconnect] of the same socket is therefore a no-op. *)
Lemma disconnect_idempotent (websocket : listener) (m m' : manager) :
  disconnect websocket m = (Ok tt, m') ->
  disconnect websocket m' = (Ok tt, m').
Proof.
  intros Hfirst. pose proof (disconnect_at_unregisters _ _ _ _ Hfirst) as Hnone.
  unfold disconnect in *. destruct recursion_limit as [|d]; [discriminate|].
  simpl. now rewrite Hnone.
Qed.

(** C8: an [ask_question] whose question is absent or the empty string
    makes exactly one transport call, the "Question is required" error to
    the asking socket, and leaves the three tables as they were. *)
Theorem empty_question_rejected (websocket : listener) (sid : string)
  (message : pydict) (m : manager) :
  get_or message "question" (JStr "") = JStr "" ->
  let m' := exec (handle_question websocket sid message) m in
  wire m' = (wire m ++ [Delivery websocket question_required_event
                          (send_ok (length (wire m)) websocket)])%list /\
  active_sessions m' = active_sessions m /\
  session_states m' = session_states m /\
  user_data m' = user_data m.
Proof.
  intros Hq. unfold handle_question, exec. rewrite Hq. simpl.
  unfold send_json. simpl. auto.
Qed.

(** *** Properties of the event stream generator *)

Lemma append_assoc (a b c : string) : (a ++ b) ++ c = a ++ (b ++ c).
Proof.
  induction a as [|x a IH]; [reflexivity|].
  change (String x ((a ++ b) ++ c) = String x (a ++ (b ++ c))). now rewrite IH.
Qed.

Lemma append_empty_r (a : string) : a ++ "" = a.
Proof.
  induction a as [|x a IH]; [reflexivity|].
  change (String x (a ++ "") = String x a). now rewrite IH.
Qed.

Lemma emit_words_plain (k : nat) (words : list string) :
  Forall (fun ev => is_terminal ev = false /\ is_sentence_mark ev = false)
         (emit_words k words).
Proof.
  revert k. induction words as [|w r IH]; intros k; simpl; [constructor|].
  constructor; [split; reflexivity|].
  destruct (_check_emphasis w); simpl;
    [constructor; [split; reflexivity|]|]; apply IH.
Qed.

(** Every word the pacing loop yields is checked against the two tables. *)
Lemma paced_word_emphasis (k : nat) (word : string) (rest : list string) :
  emit_words k (word :: rest) =
    (text_event word (loop_time k)
     :: match _check_emphasis word with
        | Some importance => [emphasis_event word importance]
        | None => []
        end
     ++ emit_words (S k) rest)%list.
Proof. reflexivity. Qed.

Example gravity_is_high : _check_emphasis "Gravity," = Some "high".
Proof. reflexivity. Qed.

Example example_is_medium : _check_emphasis "example." = Some "medium".
Proof. reflexivity. Qed.

Example apple_is_plain : _check_emphasis "apple" = None.
Proof. reflexivity. Qed.

Lemma pace_words_plain (wb : string) (k : nat) :
  Forall (fun ev => is_terminal ev = false /\ is_sentence_mark ev = false)
         (fst (fst (pace_words wb k))).
Proof.
  unfold pace_words. destruct (has_word_break wb); simpl.
  - apply emit_words_plain.
  - constructor.
Qed.

Lemma close_sentence_marks (s : string) :
  Forall (fun ev => is_terminal ev = false /\ is_sentence_mark ev = true)
         (fst (close_sentence s)).
Proof.
  unfold close_sentence. destruct (has_terminator s); simpl; [|constructor].
  destruct (_extract_visual_cue s); simpl; repeat constructor.
Qed.

Lemma process_chunk_events (b : buffers) (content : string) :
  fst (process_chunk b content) =
    (fst (fst (pace_words (word_buffer b ++ content) (paced b)))
     ++ fst (close_sentence (current_sentence b ++ content)))%list.
Proof.
  unfold process_chunk.
  destruct (pace_words _ _) as [[we wb'] k'].
  destruct (close_sentence _) as [se cs']. reflexivity.
Qed.

Lemma process_chunk_buffers (b : buffers) (content : string) :
  full_text (snd (process_chunk b content)) = full_text b ++ content /\
  current_sentence (snd (process_chunk b content)) =
    snd (close_sentence (current_sentence b ++ content)).
Proof.
  unfold process_chunk.
  destruct (pace_words _ _) as [[we wb'] k'].
  destruct (close_sentence _) as [se cs']. split; reflexivity.
Qed.

Lemma process_chunk_nonterminal (b : buffers) (content : string) :
  Forall (fun ev => is_terminal ev = false) (fst (process_chunk b content)).
Proof.
  rewrite process_chunk_events. apply Forall_app. split.
  - eapply List.Forall_impl; [|apply pace_words_plain]. now intros ev [H _].
  - eapply List.Forall_impl; [|apply close_sentence_marks]. now intros ev [H _].
Qed.

Lemma full_text_after (cs : list (option string)) (b : buffers) :
  full_text (buffers_after cs b) = full_text b ++ joined cs.
Proof.
  revert b. induction cs as [|[content|] r IH]; intros b; simpl.
  - symmetry. apply append_empty_r.
  - destruct (PyStr.is_empty content) eqn:Hempty.
    + destruct content; [|discriminate]. simpl. apply IH.
    + rewrite IH. destruct (process_chunk_buffers b content) as [-> _].
      apply append_assoc.
  - apply IH.
Qed.

(** The loop yields plain events and then leaves through exactly one of its
    two exits. *)
Lemma stream_loop_shape (cs : list (option string)) (fail : option string)
  (b : buffers) :
  exists body,
    Forall (fun ev => is_terminal ev = false) body /\
    stream_loop cs fail b =
      (body ++ match fail with
               | Some message => [error_event message]
               | None => finish (buffers_after cs b)
               end)%list.
Proof.
  revert b. induction cs as [|[content|] r IH]; intros b; simpl.
  - exists []. split; [constructor|]. reflexivity.
  - destruct (PyStr.is_empty content); [apply IH|].
    pose proof (process_chunk_nonterminal b content) as Hplain.
    destruct (process_chunk b content) as [evs b'] eqn:Hstep. simpl in *.
    destruct (IH b') as (body & Hbody & ->).
    exists (evs ++ body)%list. split; [now apply Forall_app|].
    now rewrite <- app_assoc.
  - apply IH.
Qed.

Lemma filter_none {A} (p : A -> bool) (l : list A) :
  Forall (fun x => p x = false) l -> List.filter p l = [].
Proof.
  induction 1 as [|x l Hx _ IH]; simpl; [reflexivity|]. now rewrite Hx.
Qed.

(** C3: one run yields the [start] event first and exactly one terminal
    event, which comes last. When the source is exhausted the run ends
    with the remaining word buffer, if any, as a last [text] event and then
    [complete] carrying every fragment the source delivered; when the
    source fails it ends with the [error] event of that failure. Nothing
    before the last event is a [complete] or an [error]. *)
Theorem stream_explanation_shape (question subject : json) :
  let src := explanation_source question subject in
  let remaining := word_buffer (buffers_after (chunks src) initial_buffers) in
  exists body : list event,
    Forall (fun ev => is_terminal ev = false) (start_event question :: body) /\
    stream_explanation question subject =
      start_event question ::
      (body ++ match failure src with
               | Some message => [error_event message]
               | None =>
                   (if PyStr.is_empty remaining then []
                    else [flush_event remaining])
                   ++ [complete_event (joined (chunks src))]
               end)%list /\
    length (List.filter is_terminal (stream_explanation question subject)) = 1.
Proof.
  intros src remaining. unfold stream_explanation. fold src.
  destruct (stream_loop_shape (chunks src) (failure src) initial_buffers)
    as (body & Hbody & Hloop).
  exists body.
  assert (Hall : Forall (fun ev => is_terminal ev = false)
                        (start_event question :: body)).
  { constructor; [reflexivity|exact Hbody]. }
  split; [exact Hall|].
  assert (Htext : full_text (buffers_after (chunks src) initial_buffers)
                  = joined (chunks src)).
  { now rewrite full_text_after. }
  rewrite Hloop. split.
  - destruct (failure src); [reflexivity|].
    unfold finish. fold remaining. now rewrite Htext.
  - change (start_event question :: (body ++ ?t)%list)
      with ((start_event question :: body) ++ t)%list.
    rewrite List.filter_app, (filter_none _ _ Hall). simpl.
    destruct (failure src); [reflexivity|].
    unfold finish. destruct (PyStr.is_empty _); reflexivity.
Qed.

Lemma filter_all {A} (p : A -> bool) (l : list A) :
  Forall (fun x => p x = true) l -> List.filter p l = l.
Proof.
  induction 1 as [|x l Hx _ IH]; simpl; [reflexivity|]. now rewrite Hx, IH.
Qed.

Lemma process_chunk_marks (b : buffers) (content : string) :
  List.filter is_sentence_mark (fst (process_chunk b content)) =
    fst (close_sentence (current_sentence b ++ content)).
Proof.
  rewrite process_chunk_events, List.filter_app.
  rewrite filter_none, filter_all; [reflexivity| |].
  - eapply List.Forall_impl; [|apply close_sentence_marks]. now intros ev [_ H].
  - eapply List.Forall_impl; [|apply pace_words_plain]. now intros ev [_ H].
Qed.

Lemma stream_loop_marks (cs : list (option string)) (fail : option string)
  (b : buffers) :
  List.filter is_sentence_mark (stream_loop cs fail b) =
    sentence_marks cs (current_sentence b).
Proof.
  revert b. induction cs as [|[content|] r IH]; intros b; simpl.
  - destruct fail; [reflexivity|].
    unfold finish. destruct (PyStr.is_empty _); reflexivity.
  - destruct (PyStr.is_empty content); [apply IH|].
    pose proof (process_chunk_marks b content) as Hmarks.
    destruct (process_chunk_buffers b content) as [_ Hsentence].
    destruct (process_chunk b content) as [evs b'] eqn:Hstep. simpl in *.
    rewrite List.filter_app, Hmarks, IH, Hsentence.
    unfold close_sentence.
    destruct (has_terminator (current_sentence b ++ content)); simpl; [|reflexivity].
    now rewrite <- app_assoc.
  - apply IH.
Qed.

(** C5, as the code has it: a cue scan and a pause happen exactly at the
    fragments after which the sentence buffer contains a ['.'], ['!'] or
    ['?'] (anywhere, not only at its end). There the buffer is scanned, a
    [visual_cue] is yielded if the scan finds one, a pause is yielded in
    any case, and the buffer is emptied; at any other fragment nothing of
    this happens and the buffer keeps growing. *)
Theorem sentence_boundary_marks (question subject : json) :
  let src := explanation_source question subject in
  List.filter is_sentence_mark (stream_explanation question subject)
    = sentence_marks (chunks src) "" /\
  forall (b : buffers) (content : string),
    let s := current_sentence b ++ content in
    let '(evs, b') := process_chunk b content in
    if has_terminator s
    then List.filter is_sentence_mark evs =
           (match _extract_visual_cue s with
            | Some c => [visual_cue_event c]
            | None => []
            end ++ [pause_event])%list
         /\ current_sentence b' = ""
    else List.filter is_sentence_mark evs = [] /\ current_sentence b' = s.
Proof.
  intros src. split.
  - unfold stream_explanation. fold src. simpl.
    change (is_sentence_mark (start_event question)) with false. cbv iota.
    apply stream_loop_marks.
  - intros b content s.
    pose proof (process_chunk_marks b content) as Hmarks.
    destruct (process_chunk_buffers b content) as [_ Hsentence].
    destruct (process_chunk b content) as [evs b'] eqn:Hstep. simpl in *.
    fold s in Hmarks, Hsentence. unfold close_sentence in *.
    destruct (has_terminator s); simpl in *; auto.
Qed.

(** *** The dispatcher's treatment of visual cues *)

Lemma on_air_nil (m : manager) : on_air m [] = m.
Proof. destruct m. unfold on_air, with_wire. simpl. now rewrite app_nil_r. Qed.

Lemma on_air_app (m : manager) (a b : list delivery) :
  on_air (on_air m a) b = on_air m (a ++ b).
Proof. unfold on_air, with_wire. simpl. now rewrite <- app_assoc. Qed.

(** The fan-out pass makes the calls [attempts] describes, touches no
    table, and returns the sockets whose call raised. *)
Lemma fan_out_attempts (targets : list listener) (ev : event)
  (exclude : option listener) (m : manager) :
  let ds := attempts (length (wire m)) targets ev exclude in
  fan_out targets ev exclude m = (Ok (failed ds), on_air m ds).
Proof.
  revert m. induction targets as [|ws r IH]; intros m; simpl.
  - unfold ret. now rewrite on_air_nil.
  - destruct (decide (Some ws = exclude)) as [Hex|Hex]; [apply IH|].
    unfold bind at 1. unfold try_except, bind at 1, send_json.
    specialize (IH (on_air m [Delivery ws ev (send_ok (length (wire m)) ws)])).
    simpl in IH. rewrite length_app in IH. simpl in IH.
    replace (length (wire m) + 1) with (S (length (wire m))) in IH by lia.
    destruct (send_ok (length (wire m)) ws) eqn:Hsend; simpl;
      unfold bind; fold (on_air m [Delivery ws ev true]);
      fold (on_air m [Delivery ws ev false]);
      rewrite IH; unfold ret, failed; simpl; now rewrite on_air_app.
Qed.

Lemma attempts_all_delivered (k : nat) (targets : list listener) (ev : event) :
  (forall k ws, send_ok k ws = true) ->
  attempts k targets ev None = deliveries targets ev.
Proof.
  intros Hok. revert k. induction targets as [|ws r IH]; intros k; simpl;
    [reflexivity|].
  destruct (decide (Some ws = None)); [discriminate|]. now rewrite Hok, IH.
Qed.

Lemma failed_deliveries (targets : list listener) (ev : event) :
  failed (deliveries targets ev) = [].
Proof. induction targets; simpl; auto. Qed.

(** With every socket taking the event, a broadcast is the fan-out alone. *)
Lemma broadcast_all_delivered (disc : listener -> M unit) (sid : string)
  (L : gset listener) (ev : event) (m : manager) :
  (forall k ws, send_ok k ws = true) ->
  active_sessions m !! sid = Some L ->
  broadcast_with disc sid ev None m = (Ok tt, on_air m (deliveries (elements L) ev)).
Proof.
  intros Hok Hsession. unfold broadcast_with. rewrite Hsession.
  unfold bind. rewrite fan_out_attempts. simpl.
  now rewrite (attempts_all_delivered _ _ _ Hok), failed_deliveries.
Qed.

(** The cues [_extract_visual_cue] can return, by action. *)
Lemma extracted_cue_kinds (sentence : string) (c : pydict) :
  _extract_visual_cue sentence = Some c ->
  (exists kind, c = cue "animate" [("type", JStr kind)]) \/
  (exists description, c = cue "show_visual" [("description", JStr description)]) \/
  (exists action kind,
      c = cue action [("type", JStr kind)] /\
      (action = "show_graph" \/ action = "draw" \/ action = "show_diagram")).
Proof.
  unfold _extract_visual_cue. destruct (inline_marker sentence) as [c'|] eqn:Hm.
  - intros [= <-]. right; left. unfold inline_marker in Hm.
    destruct (PyStr.contains _ _); [|discriminate].
    destruct (_ >? _)%Z; [|discriminate].
    injection Hm as <-. eauto.
  - unfold visual_triggers. simpl first_trigger.
    repeat (destruct (PyStr.contains _ _);
            [intros [= <-];
             first [ left; eexists; reflexivity
                   | right; right; do 2 eexists; split; [reflexivity|]; auto ] |]).
    discriminate.
Qed.

(** A broadcast that is followed by nothing is the broadcast. *)
Lemma bind_ret_tt (c : M unit) (m : manager) : (c ;; ret tt) m = c m.
Proof. unfold bind, ret. destruct (c m) as [[[]|e] m']; reflexivity. Qed.

(** C6, as the code has it: the dispatcher broadcasts every [visual_cue]
    the run yields, and derives a [visual_update] from it only for two of
    the five actions. For [animate] it then broadcasts an update of kind
    animation that carries the animation name found under ["type"] in the
    cue's data and the entry of the static table for that name (the
    generic entry for a name the table does not list). For [show_visual]
    it then broadcasts an update of kind image that carries the
    description found in the cue's data, and no table entry. For
    [show_graph], [draw] and [show_diagram] the broadcast of the cue is
    all that happens. *)
Theorem visual_cue_dispatch (sentence : string) (c : pydict) (sid : string)
  (m : manager) :
  _extract_visual_cue sentence = Some c ->
  let ev := visual_cue_event c in
  let data := as_dict (get c "data") in
  (get c "action" = JStr "animate" /\
   exists kind,
     get data "type" = JStr kind /\
     relay sid ev m =
       (broadcast_to_session sid ev None ;;
        broadcast_to_session sid
          [ ("type", JStr "visual_update"); ("visual_type", JStr "animation");
            ("animation", JStr kind);
            ("data", JDict match table_get kind animations with
                           | Some descriptor => descriptor
                           | None => generic_animation
                           end) ] None) m) \/
  (get c "action" = JStr "show_visual" /\
   exists description,
     get data "description" = JStr description /\
     relay sid ev m =
       (broadcast_to_session sid ev None ;;
        broadcast_to_session sid
          [ ("type", JStr "visual_update"); ("visual_type", JStr "image");
            ("description", JStr description) ] None) m) \/
  ((get c "action" = JStr "show_graph" \/ get c "action" = JStr "draw" \/
    get c "action" = JStr "show_diagram") /\
   relay sid ev m = broadcast_to_session sid ev None m).
Proof.
  intros Hcue ev data.
  destruct (extracted_cue_kinds _ _ Hcue)
    as [[kind ->] | [[description ->] | (action & kind & -> & Haction)]].
  - left. split; [reflexivity|]. exists kind. split; reflexivity.
  - right; left. split; [reflexivity|]. exists description. split; reflexivity.
  - right; right. split.
    + destruct Haction as [-> | [-> | ->]]; simpl; auto.
    + rewrite <- (bind_ret_tt (broadcast_to_session sid ev None)).
      destruct Haction as [-> | [-> | ->]]; reflexivity.
Qed.

(** *** The registry invariant *)

(** One frame of [disconnect] for a registered socket whose session is in
    both tables. *)
Lemma disconnect_at_step (d : nat) (ws : listener) (m : manager)
  (info : user_info) (L : gset listener) (s : session_state) :
  user_data m !! ws = Some info ->
  active_sessions m !! session_id info = Some L ->
  session_states m !! session_id info = Some s ->
  let sid := session_id info in
  disconnect_at (S d) ws m =
    if decide (L ∖ {[ws]} = ∅) then
      del_user ws (Manager (delete sid (active_sessions m))
                           (delete sid (session_states m))
                           (user_data m) (wire m))
    else
      (broadcast_with (disconnect_at d) sid
         (user_left_event (participants s - 1)) None ;; del_user ws)
        (Manager (<[sid := L ∖ {[ws]}]> (active_sessions m))
                 (<[sid := set_participants (fun n => n - 1)%Z s]> (session_states m))
                 (user_data m) (wire m)).
Proof.
  intros Huser Hactive Hstate sid. subst sid. simpl. rewrite Huser, Hactive.
  unfold bind, modify, update_state, read_state, read_listeners, bind. simpl.
  rewrite Hstate. simpl. rewrite !lookup_insert_eq.
  destruct (decide (L ∖ {[ws]} = ∅)) as [Hempty|Hmore].
  - unfold del_listeners, del_state, read_listeners, read_state, bind, modify. simpl.
    rewrite !lookup_insert_eq. simpl. rewrite !lookup_insert_eq.
    unfold with_states, with_active. simpl. now rewrite !delete_insert_eq.
  - simpl. rewrite lookup_insert_eq. reflexivity.
Qed.

Lemma registry_ok_on_air (P : gset listener) (m : manager) (ds : list delivery) :
  registry_ok P m -> registry_ok P (on_air m ds).
Proof. intros []. constructor; simpl; auto. Qed.

Lemma pending_bound (P : gset listener) (m : manager) :
  registry_ok P m -> size P <= size (user_data m).
Proof.
  intros Hok. rewrite <- (size_dom (D := gset listener)).
  apply subseteq_size. intros ws Hws. apply elem_of_dom. now apply (ok_pending _ _ Hok).
Qed.

Lemma each_removed (d : nat) (disc : listener -> M unit) :
  removes_safely d disc ->
  forall (l : list listener) P m,
    registry_ok P m -> size (user_data m) < d + size P ->
    Forall (fun w => w ∉ P) l ->
    exists m',
      for_each l disc m = (Ok tt, m') /\
      registry_ok P m' /\
      user_data m' ⊆ user_data m /\
      (forall w, w ∈ l -> user_data m' !! w = None) /\
      exists later, wire m' = (wire m ++ later)%list.
Proof.
  intros Hdisc l. induction l as [|w r IH]; intros P m Hok Hsize Hout.
  - exists m. simpl. unfold ret. split; [reflexivity|]. split; [exact Hok|].
    split; [reflexivity|]. split.
    + intros w Hw. inversion Hw.
    + exists []. now rewrite app_nil_r.
  - inversion Hout as [|? ? Hw Hr]; subst.
    destruct (Hdisc P w m Hok Hw Hsize) as (m1 & Hrun & Hok1 & Hsub1 & Hgone & later1 & Hwire1).
    assert (Hsize1 : size (user_data m1) < d + size P).
    { pose proof (map_subseteq_size _ _ Hsub1). lia. }
    destruct (IH P m1 Hok1 Hsize1 Hr) as (m2 & Hrun2 & Hok2 & Hsub2 & Hgone2 & later2 & Hwire2).
    exists m2. simpl. unfold bind. rewrite Hrun, Hrun2.
    split; [reflexivity|]. split; [exact Hok2|]. split; [|split].
    + etrans; eauto.
    + intros w' Hw'. apply elem_of_cons in Hw' as [->|Hw']; auto.
      eapply lookup_weaken_None; eauto.
    + exists (later1 ++ later2)%list. now rewrite Hwire2, Hwire1, app_assoc.
Qed.

Lemma failed_among (k : nat) (targets : list listener) (ev : event)
  (exclude : option listener) (w : listener) :
  w ∈ failed (attempts k targets ev exclude) -> w ∈ targets.
Proof.
  revert k. induction targets as [|ws r IH]; intros k; simpl.
  - intros H. inversion H.
  - destruct (decide (Some ws = exclude)).
    + intros H. right. eapply IH, H.
    + unfold failed. simpl. destruct (send_ok k ws); simpl.
      * intros H. right. eapply IH, H.
      * intros H. apply elem_of_cons in H as [->|H]; [left|right]. eapply IH, H.
Qed.

Lemma broadcast_safe (d : nat) (disc : listener -> M unit) :
  removes_safely d disc ->
  forall P m sid ev exclude,
    registry_ok P m -> size (user_data m) < d + size P ->
    exists m',
      broadcast_with disc sid ev exclude m = (Ok tt, m') /\
      registry_ok P m' /\
      user_data m' ⊆ user_data m /\
      exists later, wire m' = (wire m ++ later)%list.
Proof.
  intros Hdisc P m sid ev exclude Hok Hsize. unfold broadcast_with.
  destruct (active_sessions m !! sid) as [L|] eqn:Hsession.
  - unfold bind. rewrite fan_out_attempts. simpl.
    set (ds := attempts (length (wire m)) (elements L) ev exclude).
    destruct (each_removed d disc Hdisc (failed ds) P (on_air m ds))
      as (m' & Hrun & Hok' & Hsub & _ & later & Hwire).
    + now apply registry_ok_on_air.
    + exact Hsize.
    + apply Forall_forall. intros w Hw. apply failed_among in Hw.
      apply elem_of_elements in Hw.
      now destruct (ok_members _ _ Hok sid L w Hsession Hw).
    + exists m'. split; [exact Hrun|]. split; [exact Hok'|]. split; [exact Hsub|].
      exists (ds ++ later)%list. rewrite Hwire. simpl. now rewrite app_assoc.
  - exists m. split; [reflexivity|]. split; [exact Hok|]. split; [reflexivity|].
    exists []. now rewrite app_nil_r.
Qed.

Section Leaving.

Variables (P : gset listener) (ws : listener) (m : manager)
          (info : user_info) (L : gset listener) (s : session_state).
Hypothesis Hok : registry_ok P m.
Hypothesis Hfree : ws ∉ P.
Hypothesis Huser : user_data m !! ws = Some info.
Hypothesis Hactive : active_sessions m !! session_id info = Some L.
Hypothesis Hstate : session_states m !! session_id info = Some s.
Hypothesis Hin : ws ∈ L.
Hypothesis Hcount : participants s = Z.of_nat (size L).

(** A socket sits in no session but its own. *)
Lemma member_elsewhere (sid : string) (L' : gset listener) (w : listener) :
  active_sessions m !! sid = Some L' -> w ∈ L' -> sid <> session_id info -> w <> ws.
Proof using Hok Hfree Huser Hactive Hstate Hin Hcount.
  forget_world.
  intros Hsession Hw Hother ->.
  destruct (ok_members _ _ Hok _ _ _ Hsession Hw) as (_ & info' & Hinfo' & Hsid).
  rewrite Huser in Hinfo'. congruence.
Qed.

(** After the discard and the decrement, while other sockets remain. *)
Lemma registry_ok_leaving :
  L ∖ {[ws]} <> ∅ ->
  registry_ok (P ∪ {[ws]})
    (Manager (<[session_id info := L ∖ {[ws]}]> (active_sessions m))
             (<[session_id info := set_participants (fun n => n - 1)%Z s]>
                (session_states m))
             (user_data m) (wire m)).
Proof using Hok Hfree Huser Hactive Hstate Hin Hcount.
  forget_world. intros Hmore. constructor; simpl.
  - intros sid L' Hsession. apply lookup_insert_Some in Hsession
      as [[<- <-] | [Hother Hsession]].
    + rewrite lookup_insert_eq. eexists. split; [reflexivity|]. simpl.
      rewrite Hcount, size_difference, size_singleton by set_solver.
      assert (1 <= size L).
      { rewrite <- (size_singleton (C := gset listener) ws).
        apply subseteq_size. set_solver. }
      lia.
    + rewrite lookup_insert_ne by done. eapply (ok_counted _ _ Hok), Hsession.
  - intros sid s' Hs. destruct (decide (session_id info = sid)) as [<-|Hother].
    + rewrite lookup_insert_eq. eauto.
    + rewrite lookup_insert_ne in Hs by done. rewrite lookup_insert_ne by done.
      eapply (ok_tracked _ _ Hok), Hs.
  - intros sid L' Hsession. apply lookup_insert_Some in Hsession
      as [[<- <-] | [Hother Hsession]]; [exact Hmore|].
    eapply (ok_nonempty _ _ Hok), Hsession.
  - intros sid L' w Hsession Hw. apply lookup_insert_Some in Hsession
      as [[<- <-] | [Hother Hsession]].
    + assert (Hw' : w ∈ L) by set_solver.
      destruct (ok_members _ _ Hok _ _ _ Hactive Hw') as [Hout Hreg].
      split; [set_solver|exact Hreg].
    + destruct (ok_members _ _ Hok _ _ _ Hsession Hw) as [Hout Hreg].
      split; [|exact Hreg].
      assert (w <> ws) by (eapply member_elsewhere; eauto). set_solver.
  - intros w info' Hinfo' Hout.
    assert (Hout' : w ∉ P) by set_solver.
    assert (Hne : w <> ws) by set_solver.
    destruct (ok_users _ _ Hok _ _ Hinfo' Hout') as (L' & Hsession & Hw).
    destruct (decide (session_id info = session_id info')) as [Heq|Hother].
    + rewrite <- Heq in *. rewrite lookup_insert_eq. eexists. split; [reflexivity|].
      rewrite Hactive in Hsession. injection Hsession as <-. set_solver.
    + rewrite lookup_insert_ne by done. eauto.
  - intros w Hw. apply elem_of_union in Hw as [Hw|Hw].
    + now apply (ok_pending _ _ Hok).
    + apply elem_of_singleton in Hw as ->. rewrite Huser. eauto.
Qed.

(** After the discard, the decrement and the clean-up of a session the
    socket was alone in. *)
Lemma registry_ok_last_out :
  L ∖ {[ws]} = ∅ ->
  registry_ok P
    (Manager (delete (session_id info) (active_sessions m))
             (delete (session_id info) (session_states m))
             (delete ws (user_data m)) (wire m)).
Proof using Hok Hfree Huser Hactive Hstate Hin Hcount.
  forget_world. intros Hlast. constructor; simpl.
  - intros sid L' Hsession. apply lookup_delete_Some in Hsession as [Hother Hsession].
    rewrite lookup_delete_ne by done. eapply (ok_counted _ _ Hok), Hsession.
  - intros sid s' Hs. apply lookup_delete_Some in Hs as [Hother Hs].
    rewrite lookup_delete_ne by done. eapply (ok_tracked _ _ Hok), Hs.
  - intros sid L' Hsession. apply lookup_delete_Some in Hsession as [Hother Hsession].
    eapply (ok_nonempty _ _ Hok), Hsession.
  - intros sid L' w Hsession Hw.
    apply lookup_delete_Some in Hsession as [Hother Hsession].
    destruct (ok_members _ _ Hok _ _ _ Hsession Hw) as [Hout Hreg].
    split; [exact Hout|].
    rewrite lookup_delete_ne; [exact Hreg|].
    intros Heq. symmetry in Heq. revert Heq. eapply member_elsewhere; eauto.
  - intros w info' Hinfo' Hout.
    apply lookup_delete_Some in Hinfo' as [Hne Hinfo'].
    destruct (ok_users _ _ Hok _ _ Hinfo' Hout) as (L' & Hsession & Hw).
    destruct (decide (session_id info = session_id info')) as [Heq|Hother].
    + rewrite <- Heq in Hsession. rewrite Hactive in Hsession.
      injection Hsession as <-. set_solver.
    + rewrite lookup_delete_ne by done. eauto.
  - intros w Hw. rewrite lookup_delete_ne by set_solver.
    now apply (ok_pending _ _ Hok).
Qed.

End Leaving.

(** The last line of [disconnect]: the socket leaves [user_data]. *)
Lemma registry_ok_forgotten (P : gset listener) (ws : listener) (m : manager) :
  registry_ok (P ∪ {[ws]}) m -> ws ∉ P ->
  registry_ok P (with_users (delete ws) m).
Proof.
  forget_world.
  intros Hok Hfree. constructor; simpl.
  - apply (ok_counted _ _ Hok).
  - apply (ok_tracked _ _ Hok).
  - apply (ok_nonempty _ _ Hok).
  - intros sid L w Hsession Hw.
    destruct (ok_members _ _ Hok _ _ _ Hsession Hw) as [Hout Hreg].
    split; [set_solver|]. rewrite lookup_delete_ne by set_solver. exact Hreg.
  - intros w info Hinfo Hout. apply lookup_delete_Some in Hinfo as [Hne Hinfo].
    apply (ok_users _ _ Hok _ _ Hinfo). set_solver.
  - intros w Hw. rewrite lookup_delete_ne by set_solver.
    apply (ok_pending _ _ Hok). set_solver.
Qed.

(** With a frame for every registered socket, [disconnect] returns, keeps
    the invariant and only ever shrinks [user_data]. *)
Lemma disconnect_at_safe (d : nat) : removes_safely d (disconnect_at d).
Proof.
  forget_world.
  induction d as [|d IH]; intros P ws m Hok Hfree Hsize.
  - pose proof (pending_bound _ _ Hok). lia.
  - destruct (user_data m !! ws) as [info|] eqn:Huser.
    + destruct (ok_users _ _ Hok _ _ Huser Hfree) as (L & Hactive & Hin).
      destruct (ok_counted _ _ Hok _ _ Hactive) as (s & Hstate & Hcount).
      rewrite (disconnect_at_step d ws m info L s Huser Hactive Hstate).
      destruct (decide (L ∖ {[ws]} = ∅)) as [Hlast|Hmore].
      * unfold del_user. simpl. rewrite Huser. eexists. split; [reflexivity|].
        split; [|split; [|split]].
        -- unfold with_users. simpl. eapply registry_ok_last_out; eauto.
        -- simpl. apply delete_subseteq.
        -- simpl. apply lookup_delete_eq.
        -- exists []. simpl. now rewrite app_nil_r.
      * match goal with |- context [bind _ _ ?m2] => set (m2' := m2) end.
        assert (Hok2 : registry_ok (P ∪ {[ws]}) m2')
          by (eapply registry_ok_leaving; eauto).
        assert (Hsize2 : size (user_data m2') < d + size (P ∪ {[ws]})).
        { rewrite size_union by set_solver. rewrite size_singleton. simpl. lia. }
        destruct (broadcast_safe d _ IH _ m2' (session_id info)
                    (user_left_event (participants s - 1)) None Hok2 Hsize2)
          as (m3 & Hrun & Hok3 & Hsub3 & later & Hwire3).
        unfold bind. rewrite Hrun.
        destruct (ok_pending _ _ Hok3 ws) as [info3 Huser3]; [set_solver|].
        unfold del_user. rewrite Huser3. eexists. split; [reflexivity|].
        split; [|split; [|split]].
        -- now apply registry_ok_forgotten.
        -- simpl. etrans; [apply delete_subseteq|exact Hsub3].
        -- simpl. apply lookup_delete_eq.
        -- exists later. simpl. exact Hwire3.
    + exists m. simpl. rewrite Huser. split; [reflexivity|].
      split; [exact Hok|]. split; [reflexivity|]. split; [reflexivity|].
      exists []. now rewrite app_nil_r.
Qed.

(** The tables once [connect] has added the socket and counted it. *)
Lemma registry_ok_joined (ws : listener) (info : user_info) (m : manager)
  (L0 : gset listener) (s0 : session_state) :
  registry_ok ∅ m ->
  user_data m !! ws = None ->
  (active_sessions m !! session_id info = Some L0 /\
   session_states m !! session_id info = Some s0) \/
  (active_sessions m !! session_id info = None /\ L0 = ∅ /\ participants s0 = 0%Z) ->
  registry_ok ∅
    (Manager (<[session_id info := {[ws]} ∪ L0]> (active_sessions m))
             (<[session_id info := set_participants (fun n => n + 1)%Z s0]>
                (session_states m))
             (<[ws := info]> (user_data m)) (wire m)).
Proof.
  forget_world.
  intros Hok Hnew Hsession.
  assert (Hfresh : forall sid L, active_sessions m !! sid = Some L -> ws ∉ L).
  { intros sid L HL Hin.
    destruct (ok_members _ _ Hok _ _ _ HL Hin) as (_ & info' & Hinfo' & _).
    congruence. }
  assert (Hout : ws ∉ L0).
  { destruct Hsession as [[HL _] | (_ & -> & _)]; [eauto|set_solver]. }
  assert (Hcount : participants s0 = Z.of_nat (size L0)).
  { destruct Hsession as [[HL Hs] | (_ & -> & ->)]; [|now rewrite size_empty].
    destruct (ok_counted _ _ Hok _ _ HL) as (s & Hs' & Hc). congruence. }
  constructor; simpl.
  - intros sid L HL. apply lookup_insert_Some in HL as [[<- <-] | [Hother HL]].
    + rewrite lookup_insert_eq. eexists. split; [reflexivity|]. simpl.
      rewrite Hcount, size_union, size_singleton by set_solver. lia.
    + rewrite lookup_insert_ne by done. eapply (ok_counted _ _ Hok), HL.
  - intros sid s Hs. destruct (decide (session_id info = sid)) as [<-|Hother].
    + rewrite lookup_insert_eq. eauto.
    + rewrite lookup_insert_ne in Hs by done. rewrite lookup_insert_ne by done.
      eapply (ok_tracked _ _ Hok), Hs.
  - intros sid L HL. apply lookup_insert_Some in HL as [[<- <-] | [Hother HL]].
    + set_solver.
    + eapply (ok_nonempty _ _ Hok), HL.
  - intros sid L w HL Hw. split; [set_solver|].
    apply lookup_insert_Some in HL as [[<- <-] | [Hother HL]].
    + destruct (decide (w = ws)) as [->|Hne].
      * rewrite lookup_insert_eq. eauto.
      * rewrite lookup_insert_ne by done.
        destruct Hsession as [[HL0 _] | (_ & -> & _)]; [|set_solver].
        assert (Hw0 : w ∈ L0) by set_solver.
        now destruct (ok_members _ _ Hok _ _ _ HL0 Hw0).
    + assert (w <> ws) by (intros ->; eapply Hfresh; eauto).
      rewrite lookup_insert_ne by done.
      now destruct (ok_members _ _ Hok _ _ _ HL Hw).
  - intros w info' Hinfo' _. apply lookup_insert_Some in Hinfo'
      as [[<- <-] | [Hne Hinfo']].
    + rewrite lookup_insert_eq. eexists. split; [reflexivity|]. set_solver.
    + destruct (ok_users _ _ Hok _ _ Hinfo') as (L & HL & Hw); [set_solver|].
      destruct (decide (session_id info = session_id info')) as [Heq|Hother].
      * rewrite <- Heq in *. rewrite lookup_insert_eq. eexists. split; [reflexivity|].
        destruct Hsession as [[HL0 _] | (Habsent & _)]; [|congruence].
        rewrite HL0 in HL. injection HL as <-. set_solver.
      * rewrite lookup_insert_ne by done. eauto.
  - intros w Hw. set_solver.
Qed.

Lemma registry_ok_empty : registry_ok ∅ empty_manager.
Proof.
  constructor; simpl; intros *; rewrite ?lookup_empty; try discriminate.
Qed.

Lemma enroll_run (ws : listener) (sid : string) (uid : option string) (m : manager) :
  registry_ok ∅ m ->
  user_data m !! ws = None ->
  exists m4 s4,
    enroll ws sid uid m = (Ok tt, m4) /\
    registry_ok ∅ m4 /\
    session_states m4 !! sid = Some s4 /\
    size (user_data m4) = S (size (user_data m)).
Proof.
  intros Hok Hnew.
  set (info := UserInfo uid sid (utcnow (length (wire m)))).
  cbv [enroll bind modify read_listeners read_state update_state].
  destruct (active_sessions m !! sid) as [L0|] eqn:HL0; simpl.
  - destruct (ok_counted _ _ Hok _ _ HL0) as (s0 & Hs0 & _).
    rewrite HL0. simpl. rewrite Hs0.
    do 2 eexists. split; [reflexivity|]. simpl. split; [|split].
    + unfold with_states, with_users, with_active. simpl.
      apply (registry_ok_joined ws info m L0 s0 Hok Hnew). left. now split.
    + apply lookup_insert_eq.
    + now apply map_size_insert_None.
  - rewrite !lookup_insert_eq. simpl. rewrite !lookup_insert_eq.
    do 2 eexists. split; [reflexivity|]. simpl. split; [|split].
    + unfold with_states, with_users, with_active. simpl.
      rewrite !insert_insert_eq.
      apply (registry_ok_joined ws info m ∅
               (new_session_state (utcnow (length (wire m)))) Hok Hnew).
      right. repeat split. exact HL0.
    + apply lookup_insert_eq.
    + now apply map_size_insert_None.
Qed.

Lemma welcome_run (ws : listener) (sid : string) (m : manager) (s : session_state) :
  registry_ok ∅ m ->
  session_states m !! sid = Some s ->
  size (user_data m) < recursion_limit ->
  registry_ok ∅ (exec (welcome ws sid) m) /\
  user_data (exec (welcome ws sid) m) ⊆ user_data m.
Proof.
  intros Hok Hs Hsize.
  set (Q := fun m' : manager => registry_ok ∅ m' /\ user_data m' ⊆ user_data m).
  change (Q (exec (welcome ws sid) m)).
  cbv [exec welcome bind read_state send_json]. rewrite Hs. simpl.
  match goal with |- context [with_wire ?f m] => set (m5 := with_wire f m) end.
  assert (Hok5 : registry_ok ∅ m5) by (apply (registry_ok_on_air _ m); exact Hok).
  destruct (send_ok (length (wire m)) ws); simpl; [|split; [exact Hok5|reflexivity]].
  rewrite Hs.
  destruct (broadcast_safe recursion_limit disconnect
              (disconnect_at_safe recursion_limit) ∅ m5 sid
              (user_joined_event (participants s)) (Some ws) Hok5)
    as (m6 & Hrun & Hok6 & Hsub & _).
  { rewrite size_empty. simpl. lia. }
  unfold broadcast_to_session. rewrite Hrun. simpl. split; assumption.
Qed.

(** [connect] of a socket that is not registered keeps the invariant,
    whether it returns or raises, and registers at most one socket. *)
Lemma connect_ok (ws : listener) (sid : string) (uid : option string) (m : manager) :
  registry_ok ∅ m ->
  user_data m !! ws = None ->
  S (size (user_data m)) < recursion_limit ->
  registry_ok ∅ (exec (connect ws sid uid) m) /\
  size (user_data (exec (connect ws sid uid) m)) <= S (size (user_data m)).
Proof.
  intros Hok Hnew Hsize.
  destruct (enroll_run ws sid uid m Hok Hnew) as (m4 & s4 & Hrun & Hok4 & Hs4 & Hsize4).
  unfold exec, connect, accept.
  destruct (accept_ok ws); cbv [bind ret raise]; simpl; [|split; [exact Hok|lia]].
  rewrite Hrun.
  destruct (welcome_run ws sid m4 s4 Hok4 Hs4) as [Hok' Hsub]; [lia|].
  split; [exact Hok'|].
  pose proof (map_subseteq_size _ _ Hsub). unfold exec in *. lia.
Qed.

Lemma run_op_ok (o : op) (m : manager) :
  registry_ok ∅ m ->
  match o with Connect ws _ _ => user_data m !! ws = None | Disconnect _ => True end ->
  S (size (user_data m)) < recursion_limit ->
  registry_ok ∅ (exec (run_op o) m) /\
  size (user_data (exec (run_op o) m)) <= S (size (user_data m)).
Proof.
  intros Hok Hfresh Hsize. destruct o as [ws sid uid|ws]; simpl.
  - now apply connect_ok.
  - destruct (disconnect_at_safe recursion_limit ∅ ws m Hok) as (m' & Hrun & Hok' & Hsub & _).
    + set_solver.
    + rewrite size_empty. lia.
    + unfold exec, disconnect. rewrite Hrun. simpl. split; [exact Hok'|].
      pose proof (map_subseteq_size _ _ Hsub). lia.
Qed.

(** The invariant along a trace whose connects bring unregistered sockets. *)
Lemma run_ops_ok (ops : list op) (m : manager) :
  registry_ok ∅ m ->
  fresh_connects ops m ->
  size (user_data m) + length ops < recursion_limit ->
  registry_ok ∅ (run_ops ops m).
Proof.
  revert m. induction ops as [|o r IH]; intros m Hok Hfresh Hsize; simpl; [exact Hok|].
  destruct Hfresh as [Ho Hr]. simpl in Hsize.
  destruct (run_op_ok o m Hok Ho) as [Hok' Hsize']; [lia|].
  apply IH; [exact Hok'|exact Hr|lia].
Qed.

Lemma run_op_within (o : op) (m : manager) :
  registry_ok ∅ m ->
  fresh_connects [o] m ->
  within_budget [o] m ->
  registry_ok ∅ (exec (run_op o) m).
Proof.
  intros Hok [Hfresh _] [Hsize _]. destruct o as [ws sid uid|ws]; simpl.
  - now apply connect_ok.
  - destruct (disconnect_at_safe recursion_limit ∅ ws m Hok) as (m' & Hrun & Hok' & _).
    + set_solver.
    + rewrite size_empty. forget_world. lia.
    + unfold exec, disconnect. now rewrite Hrun.
Qed.

(** The invariant after every call of a trace that stays within the
    budget and whose connects bring unregistered sockets. *)
Lemma run_ops_within (k : nat) (ops : list op) (m : manager) :
  registry_ok ∅ m ->
  fresh_connects ops m ->
  within_budget ops m ->
  registry_ok ∅ (run_ops (take k ops) m).
Proof.
  revert k m. induction ops as [|o r IH]; intros [|k] m Hok Hfresh Hsize; simpl;
    try exact Hok.
  destruct Hfresh as [Ho Hr], Hsize as [Hs Hrs].
  apply IH; [|exact Hr|exact Hrs].
  apply run_op_within; [exact Hok| |]; simpl; auto.
Qed.

(** C1: along every sequence of [connect] and [disconnect] calls, after
    every call the participant count of each session equals the size of
    its listener set, and neither table holds a session whose listener
    set is empty. The sequences are those the connection layer produces:
    each [connect] brings a socket that is not registered at that moment
    (the route hands every new socket to [connect] once, and [accept]
    refuses a socket that has been accepted), and the sockets registered
    at any moment are fewer than the interpreter's recursion limit. *)
Theorem participants_match_listeners (ops : list op) (k : nat) :
  fresh_connects ops empty_manager ->
  within_budget ops empty_manager ->
  let m := run_ops (take k ops) empty_manager in
  (forall sid L, active_sessions m !! sid = Some L ->
     L <> ∅ /\
     exists s, session_states m !! sid = Some s /\
               participants s = Z.of_nat (size L)) /\
  (forall sid, is_Some (session_states m !! sid) ->
               is_Some (active_sessions m !! sid)).
Proof.
  intros Hfresh Hbudget m.
  assert (Hok : registry_ok ∅ m).
  { apply run_ops_within; [apply registry_ok_empty|exact Hfresh|exact Hbudget]. }
  split.
  - intros sid L HL. split.
    + eapply (ok_nonempty _ _ Hok), HL.
    + eapply (ok_counted _ _ Hok), HL.
  - intros sid [s Hs]. eapply (ok_tracked _ _ Hok), Hs.
Qed.

(** *** The broadcast router *)

Lemma attempts_targets (k : nat) (targets : list listener) (ev : event)
  (exclude : option listener) :
  map to (attempts k targets ev exclude)
    = List.filter (fun ws => bool_decide (Some ws <> exclude)) targets.
Proof.
  revert k. induction targets as [|ws r IH]; intros k; simpl; [reflexivity|].
  destruct (decide (Some ws = exclude)) as [Heq|Hne].
  - rewrite bool_decide_eq_false_2 by (intros H; now apply H). apply IH.
  - rewrite bool_decide_eq_true_2 by exact Hne. simpl. now rewrite IH.
Qed.

Lemma attempts_payload (k : nat) (targets : list listener) (ev : event)
  (exclude : option listener) :
  Forall (fun d => payload d = ev) (attempts k targets ev exclude).
Proof.
  revert k. induction targets as [|ws r IH]; intros k; simpl; [constructor|].
  destruct (decide (Some ws = exclude)); [apply IH|]. constructor; [reflexivity|apply IH].
Qed.

Lemma attempts_answer (k : nat) (targets : list listener) (ev : event)
  (exclude : option listener) (i : nat) (d : delivery) :
  attempts k targets ev exclude !! i = Some d ->
  delivered d = send_ok (k + i) (to d).
Proof.
  revert k i. induction targets as [|ws r IH]; intros k i; simpl; [discriminate|].
  destruct (decide (Some ws = exclude)); [apply IH|].
  destruct i as [|i]; simpl.
  - intros [= <-]. simpl. now rewrite Nat.add_0_r.
  - intros Hd. rewrite (IH _ _ Hd). f_equal. lia.
Qed.

(** A broadcast to a session that does not exist does nothing. *)
Lemma broadcast_unknown_session (sid : string) (ev : event)
  (exclude : option listener) (m : manager) :
  active_sessions m !! sid = None ->
  broadcast_to_session sid ev exclude m = (Ok tt, m).
Proof.
  intros Habsent. unfold broadcast_to_session, broadcast_with. now rewrite Habsent.
Qed.

(** C2: a broadcast to a session makes one transport call per listener
    of the session other than the excluded one, each carrying the event and
    each answered by the transport on its own, so a listener whose channel
    works gets the event whatever happens to the others. The tables are not
    touched during this pass; the listeners whose call raised are collected
    and only afterwards handed to [disconnect], one by one. The broadcast
    returns normally, everything it sends later comes after the whole pass,
    the collected listeners are no longer registered and the registry is
    consistent again. *)
Theorem broadcast_fan_out (sid : string) (ev : event) (exclude : option listener)
  (m : manager) (L : gset listener) :
  registry_ok ∅ m ->
  size (user_data m) < recursion_limit ->
  active_sessions m !! sid = Some L ->
  let sends := attempts (length (wire m)) (elements L) ev exclude in
  exists (m' : manager) (later : list delivery),
    fan_out (elements L) ev exclude m = (Ok (failed sends), on_air m sends) /\
    broadcast_to_session sid ev exclude m = (Ok tt, m') /\
    m' = exec (for_each (failed sends) disconnect) (on_air m sends) /\
    wire m' = (wire m ++ sends ++ later)%list /\
    map to sends = List.filter (fun ws => bool_decide (Some ws <> exclude)) (elements L) /\
    Forall (fun d => payload d = ev) sends /\
    (forall i d, sends !! i = Some d ->
                 delivered d = send_ok (length (wire m) + i) (to d)) /\
    (forall ws, ws ∈ failed sends -> user_data m' !! ws = None) /\
    registry_ok ∅ m'.
Proof.
  intros Hok Hsize Hsession sends.
  destruct (each_removed recursion_limit disconnect
              (disconnect_at_safe recursion_limit) (failed sends) ∅ (on_air m sends))
    as (m' & Hrun & Hok' & Hsub & Hgone & later & Hwire).
  { now apply registry_ok_on_air. }
  { rewrite size_empty. simpl. lia. }
  { apply Forall_forall. intros w _. set_solver. }
  exists m', later. split; [apply fan_out_attempts|].
  split; [|split; [|split; [|split; [|split; [|split; [|split]]]]]].
  - unfold broadcast_to_session, broadcast_with. rewrite Hsession.
    unfold bind. rewrite fan_out_attempts. exact Hrun.
  - unfold exec. now rewrite Hrun.
  - rewrite Hwire. simpl. now rewrite app_assoc.
  - apply attempts_targets.
  - apply attempts_payload.
  - intros i d. apply attempts_answer.
  - exact Hgone.
  - exact Hok'.
Qed.

(** *** Commands keep the registry consistent *)

Lemma keeps_ret {A} (a : A) : keeps_registry (ret a).
Proof. intros m Hok _. simpl. split; [exact Hok|reflexivity]. Qed.

Lemma keeps_raise {A} (e : exn) : keeps_registry (@raise A e).
Proof. intros m Hok _. simpl. split; [exact Hok|reflexivity]. Qed.

Lemma keeps_bind {A B} (c : M A) (k : A -> M B) :
  keeps_registry c -> (forall a, keeps_registry (k a)) -> keeps_registry (bind c k).
Proof.
  intros Hc Hk m Hok Hsize. unfold bind.
  destruct (Hc m Hok Hsize) as [Hok1 Hsub1].
  destruct (c m) as [[a|e] m1]; simpl in *; [|split; assumption].
  destruct (Hk a m1 Hok1) as [Hok2 Hsub2].
  { pose proof (map_subseteq_size _ _ Hsub1). lia. }
  split; [exact Hok2|]. etrans; eassumption.
Qed.

Lemma keeps_try {A} (body : M A) (handler : exn -> M A) :
  keeps_registry body -> (forall e, keeps_registry (handler e)) ->
  keeps_registry (try_except body handler).
Proof.
  intros Hbody Hhandler m Hok Hsize. unfold try_except.
  destruct (Hbody m Hok Hsize) as [Hok1 Hsub1].
  destruct (body m) as [[a|e] m1]; simpl in *; [split; assumption|].
  destruct (Hhandler e m1 Hok1) as [Hok2 Hsub2].
  { pose proof (map_subseteq_size _ _ Hsub1). lia. }
  split; [exact Hok2|]. etrans; eassumption.
Qed.

Lemma keeps_for_each {A} (l : list A) (body : A -> M unit) :
  (forall x, keeps_registry (body x)) -> keeps_registry (for_each l body).
Proof.
  intros Hbody. induction l as [|x r IH]; simpl.
  - apply keeps_ret.
  - apply keeps_bind; [apply Hbody|]. intros _. exact IH.
Qed.

Lemma keeps_send_json (ws : listener) (ev : event) : keeps_registry (send_json ws ev).
Proof.
  intros m Hok _. unfold send_json. simpl. split; [|reflexivity].
  apply (registry_ok_on_air _ m). exact Hok.
Qed.

(** A write to a session's metadata that leaves its count alone. *)
Lemma keeps_update_state (sid : string) (f : session_state -> session_state) :
  (forall s, participants (f s) = participants s) ->
  keeps_registry (update_state sid f).
Proof.
  intros Hf m Hok _. cbv [update_state bind read_state modify].
  destruct (session_states m !! sid) as [s|] eqn:Hs; simpl;
    [|split; [exact Hok|reflexivity]].
  split; [|reflexivity]. constructor; simpl.
  - intros sid' L HL. destruct (decide (sid = sid')) as [<-|Hne].
    + rewrite lookup_insert_eq. eexists. split; [reflexivity|]. rewrite Hf.
      destruct (ok_counted _ _ Hok _ _ HL) as (s' & Hs' & Hc). congruence.
    + rewrite lookup_insert_ne by done. eapply (ok_counted _ _ Hok), HL.
  - intros sid' s' Hs'. destruct (decide (sid = sid')) as [<-|Hne].
    + eapply (ok_tracked _ _ Hok), Hs.
    + rewrite lookup_insert_ne in Hs' by done. eapply (ok_tracked _ _ Hok), Hs'.
  - apply (ok_nonempty _ _ Hok).
  - apply (ok_members _ _ Hok).
  - apply (ok_users _ _ Hok).
  - apply (ok_pending _ _ Hok).
Qed.

Lemma keeps_broadcast (sid : string) (ev : event) (exclude : option listener) :
  keeps_registry (broadcast_to_session sid ev exclude).
Proof.
  intros m Hok Hsize.
  destruct (broadcast_safe recursion_limit disconnect
              (disconnect_at_safe recursion_limit) ∅ m sid ev exclude Hok)
    as (m' & Hrun & Hok' & Hsub & _).
  { rewrite size_empty. lia. }
  unfold broadcast_to_session. rewrite Hrun. simpl. split; assumption.
Qed.

Lemma keeps_disconnect (ws : listener) : keeps_registry (disconnect ws).
Proof.
  intros m Hok Hsize.
  destruct (disconnect_at_safe recursion_limit ∅ ws m Hok) as (m' & Hrun & Hok' & Hsub & _).
  { set_solver. }
  { rewrite size_empty. lia. }
  unfold disconnect. rewrite Hrun. simpl. split; assumption.
Qed.

Lemma keeps_relay (sid : string) (ev : event) : keeps_registry (relay sid ev).
Proof.
  unfold relay. apply keeps_bind; [apply keeps_broadcast|]. intros _.
  destruct (has_type "visual_cue" ev); [|apply keeps_ret].
  destruct (_process_visual_cue ev); [apply keeps_broadcast|apply keeps_ret].
Qed.

Lemma keeps_handle_question (ws : listener) (sid : string) (message : pydict) :
  keeps_registry (handle_question ws sid message).
Proof.
  unfold handle_question. destruct (negb _); [apply keeps_send_json|].
  apply keeps_bind; [now apply keeps_update_state|]. intros _.
  apply keeps_bind; [now apply keeps_update_state|]. intros _.
  apply keeps_bind; [apply keeps_broadcast|]. intros _.
  apply keeps_try.
  - apply keeps_bind; [apply keeps_for_each, keeps_relay|]. intros _.
    apply keeps_bind; [now apply keeps_update_state|]. intros _.
    apply keeps_broadcast.
  - intros _. apply keeps_bind; [apply keeps_broadcast|]. intros _.
    now apply keeps_update_state.
Qed.

Lemma keeps_handle_visual_request (ws : listener) (sid : string) (message : pydict) :
  keeps_registry (handle_visual_request ws sid message).
Proof.
  unfold handle_visual_request. apply keeps_bind; [apply keeps_broadcast|]. intros _.
  apply keeps_try.
  - destruct (generate_visual _ _); [apply keeps_broadcast|apply keeps_raise].
  - intros _. apply keeps_send_json.
Qed.

Lemma keeps_handle_pause (sid : string) : keeps_registry (handle_pause sid).
Proof.
  unfold handle_pause. apply keeps_bind; [now apply keeps_update_state|].
  intros _. apply keeps_broadcast.
Qed.

Lemma keeps_handle_resume (sid : string) : keeps_registry (handle_resume sid).
Proof.
  unfold handle_resume. apply keeps_bind; [now apply keeps_update_state|].
  intros _. apply keeps_broadcast.
Qed.

(** X5: whatever command arrives from whichever socket, and however
    handling it ends (normally or by raising), the registry is consistent
    afterwards (every count matches its listener set, no session is empty,
    every registered socket sits in its session) and no socket has been
    registered by it. *)
Theorem handle_message_keeps_registry (websocket : listener) (message : pydict)
  (m : manager) :
  registry_ok ∅ m ->
  size (user_data m) < recursion_limit ->
  registry_ok ∅ (exec (handle_message websocket message) m) /\
  user_data (exec (handle_message websocket message) m) ⊆ user_data m.
Proof.
  intros Hok Hsize. unfold exec, handle_message.
  destruct (user_data m !! websocket) as [info|] eqn:Hinfo;
    [|split; [exact Hok|reflexivity]].
  repeat match goal with
         | |- context [if ?b then _ else _] => destruct b
         end.
  - now apply keeps_handle_question.
  - now apply keeps_handle_visual_request.
  - now apply keeps_handle_pause.
  - now apply keeps_handle_resume.
  - now apply keeps_send_json.
  - unfold handle_chat. now apply keeps_broadcast.
  - now apply keeps_ret.
Qed.

(** *** What [connect] and [disconnect] do to a consistent registry *)

Lemma attempts_all_open (k : nat) (targets : list listener) (ev : event)
  (exclude : option listener) :
  (forall k ws, send_ok k ws = true) ->
  attempts k targets ev exclude = deliveries (others exclude targets) ev.
Proof.
  intros Hopen. revert k. induction targets as [|ws r IH]; intros k; simpl;
    [reflexivity|].
  destruct (decide (Some ws = exclude)) as [Heq|Hne].
  - rewrite bool_decide_eq_false_2 by (intros H; now apply H). apply IH.
  - rewrite bool_decide_eq_true_2 by exact Hne. simpl. now rewrite Hopen, IH.
Qed.

(** With every channel open a broadcast reaches the others and changes no
    table. *)
Lemma broadcast_all_open (disc : listener -> M unit) (sid : string)
  (L : gset listener) (ev : event) (exclude : option listener) (m : manager) :
  (forall k ws, send_ok k ws = true) ->
  active_sessions m !! sid = Some L ->
  broadcast_with disc sid ev exclude m
    = (Ok tt, on_air m (deliveries (others exclude (elements L)) ev)).
Proof.
  intros Hopen Hsession. unfold broadcast_with. rewrite Hsession.
  unfold bind. rewrite fan_out_attempts. simpl.
  now rewrite (attempts_all_open _ _ _ _ Hopen), failed_deliveries.
Qed.

(** The tables after the first half of [connect]. *)
Lemma enroll_exact (ws : listener) (sid : string) (uid : option string) (m : manager) :
  registry_ok ∅ m ->
  enroll ws sid uid m =
    (Ok tt,
     Manager
       (<[sid := {[ws]} ∪ default ∅ (active_sessions m !! sid)]> (active_sessions m))
       (<[sid := set_participants (fun n => n + 1)%Z
                   (default (new_session_state (utcnow (length (wire m))))
                            (session_states m !! sid))]> (session_states m))
       (<[ws := UserInfo uid sid (utcnow (length (wire m)))]> (user_data m))
       (wire m)).
Proof.
  intros Hok. cbv [enroll bind modify read_listeners read_state update_state].
  destruct (active_sessions m !! sid) as [L0|] eqn:HL0; simpl.
  - destruct (ok_counted _ _ Hok _ _ HL0) as (s0 & Hs0 & _).
    rewrite HL0. simpl. rewrite Hs0. reflexivity.
  - assert (Hs0 : session_states m !! sid = None).
    { destruct (session_states m !! sid) as [s|] eqn:Hs; [|reflexivity].
      destruct (ok_tracked _ _ Hok _ _ Hs) as [L HL]. congruence. }
    rewrite !lookup_insert_eq. simpl. rewrite !lookup_insert_eq. rewrite Hs0. simpl.
    unfold with_states, with_users, with_active. simpl.
    now rewrite !insert_insert_eq.
Qed.

(** The others of a fan-out, as a set: the targets without the excluded. *)
Lemma others_of_elements (L : gset listener) (ws : listener) :
  others (Some ws) (elements L) ≡ₚ elements (L ∖ {[ws]}).
Proof.
  apply NoDup_Permutation.
  - unfold others. apply NoDup_ListNoDup, List.NoDup_filter, NoDup_ListNoDup, NoDup_elements.
  - apply NoDup_elements.
  - intros w. unfold others. rewrite list_elem_of_In, List.filter_In.
    rewrite <- list_elem_of_In, !elem_of_elements, bool_decide_eq_true.
    rewrite elem_of_difference, elem_of_singleton. split.
    + intros [Hin Hne]. split; [exact Hin|]. intros ->. now apply Hne.
    + intros [Hin Hne]. split; [exact Hin|]. intros [= ->]. now apply Hne.
Qed.

Lemma others_none (targets : list listener) : others None targets = targets.
Proof.
  induction targets as [|w r IH]; [reflexivity|].
  unfold others in *. cbn [List.filter].
  rewrite bool_decide_eq_true_2 by done. f_equal. exact IH.
Qed.

(** X1: when a socket that is not registered connects and every channel
    works, [connect] returns normally; the socket is in the session's
    listener set and registered under that session; the count is the former
    number of listeners plus one; the socket gets one [connected] event
    carrying that count, and then the listeners that were there before, and
    only they, get one [user_joined] each, carrying the same count. *)
Theorem connect_welcomes (ws : listener) (sid : string) (uid : option string)
  (m : manager) :
  registry_ok ∅ m ->
  user_data m !! ws = None ->
  accept_ok ws = true ->
  (forall k w, send_ok k w = true) ->
  let L0 := default ∅ (active_sessions m !! sid) in
  let n := (Z.of_nat (size L0) + 1)%Z in
  exists (m' : manager) (notified : list listener),
    connect ws sid uid m = (Ok tt, m') /\
    active_sessions m' !! sid = Some ({[ws]} ∪ L0) /\
    participants <$> (session_states m' !! sid) = Some n /\
    session_id <$> (user_data m' !! ws) = Some sid /\
    wire m' = (wire m ++ Delivery ws (connected_event sid n) true
                 :: deliveries notified (user_joined_event n))%list /\
    notified ≡ₚ elements L0.
Proof.
  forget_world. intros Hok Hnew Haccept Hopen L0 n.
  assert (Hcount : participants (default (new_session_state (utcnow (length (wire m))))
                                         (session_states m !! sid))
                   = Z.of_nat (size L0)).
  { subst L0. destruct (active_sessions m !! sid) as [L|] eqn:HL; simpl.
    - destruct (ok_counted _ _ Hok _ _ HL) as (s & -> & Hc). exact Hc.
    - destruct (session_states m !! sid) as [s|] eqn:Hs.
      + destruct (ok_tracked _ _ Hok _ _ Hs) as [L HL']. congruence.
      + change (0%Z = Z.of_nat (size (∅ : gset nat))). now rewrite size_empty. }
  assert (Hout : ws ∉ L0).
  { subst L0. destruct (active_sessions m !! sid) as [L|] eqn:HL; simpl; [|set_solver].
    intros Hin. destruct (ok_members _ _ Hok _ _ _ HL Hin) as (_ & info & Hinfo & _).
    congruence. }
  unfold connect, accept. rewrite Haccept.
  cbv [bind ret]. rewrite (enroll_exact ws sid uid m Hok).
  cbv [welcome bind read_state send_json]. simpl. rewrite lookup_insert_eq. simpl.
  rewrite Hopen. rewrite lookup_insert_eq. simpl.
  unfold broadcast_to_session.
  erewrite broadcast_all_open; [|exact Hopen|simpl; apply lookup_insert_eq].
  exists (on_air
            (with_wire
               (fun w => (w ++ [Delivery ws (connected_event sid n) true])%list)
               (Manager (<[sid := {[ws]} ∪ L0]> (active_sessions m))
                  (<[sid := set_participants (fun n => n + 1)%Z
                              (default (new_session_state (utcnow (length (wire m))))
                                       (session_states m !! sid))]> (session_states m))
                  (<[ws := UserInfo uid sid (utcnow (length (wire m)))]> (user_data m))
                  (wire m)))
            (deliveries (others (Some ws) (elements ({[ws]} ∪ L0)))
               (user_joined_event n))),
         (others (Some ws) (elements ({[ws]} ∪ L0))).
  simpl. rewrite Hcount. fold L0. fold n.
  split; [reflexivity|]. rewrite !lookup_insert_eq. simpl. rewrite Hcount. fold n.
  split; [reflexivity|]. split; [reflexivity|]. split; [reflexivity|].
  split; [now rewrite <- app_assoc|].
  rewrite others_of_elements.
  replace (({[ws]} ∪ L0) ∖ {[ws]}) with L0 by set_solver. reflexivity.
Qed.

(** X2: when the only listener of a session disconnects, the session
    disappears from both tables, the socket is no longer registered, and
    nothing is sent to anybody, whatever the state of the channels. *)
Theorem disconnect_last_listener (ws : listener) (info : user_info) (m : manager) :
  recursion_limit <> 0 ->
  registry_ok ∅ m ->
  user_data m !! ws = Some info ->
  active_sessions m !! session_id info = Some {[ws]} ->
  disconnect ws m =
    (Ok tt, Manager (delete (session_id info) (active_sessions m))
                    (delete (session_id info) (session_states m))
                    (delete ws (user_data m)) (wire m)).
Proof.
  forget_world. intros Hlimit Hok Hinfo HL.
  destruct (ok_counted _ _ Hok _ _ HL) as (s & Hs & _).
  unfold disconnect. destruct recursion_limit as [|d]; [congruence|].
  rewrite (disconnect_at_step d ws m info {[ws]} s Hinfo HL Hs).
  destruct (decide (({[ws]} : gset nat) ∖ {[ws]} = ∅)) as [_|Hne]; [|set_solver].
  unfold del_user. simpl. now rewrite Hinfo.
Qed.

(** X3: when a listener disconnects from a session in which others remain
    and every channel works, it leaves the listener set and [user_data], the
    count drops to the number of listeners that remain, and each of them
    gets exactly one [user_left] carrying that count. *)
Theorem disconnect_notifies_rest (ws : listener) (info : user_info)
  (L : gset listener) (m : manager) :
  recursion_limit <> 0 ->
  registry_ok ∅ m ->
  (forall k w, send_ok k w = true) ->
  user_data m !! ws = Some info ->
  active_sessions m !! session_id info = Some L ->
  L ∖ {[ws]} <> ∅ ->
  let n := Z.of_nat (size (L ∖ {[ws]})) in
  exists m',
    disconnect ws m = (Ok tt, m') /\
    active_sessions m' = <[session_id info := L ∖ {[ws]}]> (active_sessions m) /\
    participants <$> (session_states m' !! session_id info) = Some n /\
    user_data m' = delete ws (user_data m) /\
    wire m' = (wire m ++ deliveries (elements (L ∖ {[ws]})) (user_left_event n))%list.
Proof.
  forget_world. intros Hlimit Hok Hopen Hinfo HL Hrest n.
  destruct (ok_counted _ _ Hok _ _ HL) as (s & Hs & Hcount).
  assert (Hin : ws ∈ L).
  { destruct (ok_users _ _ Hok _ _ Hinfo) as (L' & HL' & Hin); [set_solver|].
    congruence. }
  assert (Hn : (participants s - 1)%Z = n).
  { subst n. rewrite Hcount, size_difference, size_singleton by set_solver.
    assert (1 <= size L).
    { rewrite <- (size_singleton (C := gset nat) ws). apply subseteq_size. set_solver. }
    lia. }
  unfold disconnect. destruct recursion_limit as [|d]; [congruence|].
  rewrite (disconnect_at_step d ws m info L s Hinfo HL Hs).
  destruct (decide (L ∖ {[ws]} = ∅)) as [Hempty|_]; [contradiction|].
  unfold bind.
  erewrite broadcast_all_open; [|exact Hopen|simpl; apply lookup_insert_eq].
  rewrite others_none. unfold del_user. simpl. rewrite Hinfo.
  eexists. split; [reflexivity|]. simpl. rewrite lookup_insert_eq. simpl.
  rewrite Hn. repeat split; reflexivity.
Qed.

(** X4: connecting a socket that is not registered and disconnecting it
    again, with every channel working, gives back the three tables exactly as
    they were: a session created for it is gone again, an existing session
    has its former listener set, count and metadata. *)
Theorem connect_disconnect_round_trip (ws : listener) (sid : string)
  (uid : option string) (m : manager) :
  recursion_limit <> 0 ->
  registry_ok ∅ m ->
  user_data m !! ws = None ->
  accept_ok ws = true ->
  (forall k w, send_ok k w = true) ->
  let m' := exec (connect ws sid uid ;; disconnect ws) m in
  result (connect ws sid uid ;; disconnect ws) m = Ok tt /\
  active_sessions m' = active_sessions m /\
  session_states m' = session_states m /\
  user_data m' = user_data m.
Proof.
  forget_world. intros Hlimit Hok Hnew Haccept Hopen.
  assert (Hout : forall L, active_sessions m !! sid = Some L -> ws ∉ L).
  { intros L HL Hin. destruct (ok_members _ _ Hok _ _ _ HL Hin) as (_ & info & Hinfo & _).
    congruence. }
  unfold exec, result, connect, accept. rewrite Haccept.
  cbv [bind ret]. rewrite (enroll_exact ws sid uid m Hok).
  cbv [welcome bind read_state send_json]. simpl. rewrite lookup_insert_eq. simpl.
  rewrite Hopen. rewrite lookup_insert_eq. simpl.
  unfold broadcast_to_session.
  erewrite broadcast_all_open; [|exact Hopen|simpl; apply lookup_insert_eq].
  unfold disconnect. destruct recursion_limit as [|d]; [congruence|].
  erewrite disconnect_at_step;
    [| simpl; apply lookup_insert_eq | simpl; apply lookup_insert_eq
     | simpl; apply lookup_insert_eq ].
  simpl.
  destruct (active_sessions m !! sid) as [L0|] eqn:HL0; simpl.
  - destruct (ok_counted _ _ Hok _ _ HL0) as (s0 & Hs0 & _). rewrite Hs0. simpl.
    specialize (Hout L0 eq_refl).
    assert (Hback : ({[ws]} ∪ L0) ∖ {[ws]} = L0) by set_solver.
    assert (Hmore : L0 <> ∅) by (eapply (ok_nonempty _ _ Hok); eauto).
    destruct (decide (({[ws]} ∪ L0) ∖ {[ws]} = ∅)) as [Hempty|_]; [congruence|].
    unfold bind. erewrite broadcast_all_open; [|exact Hopen|simpl; apply lookup_insert_eq].
    unfold del_user. simpl. rewrite lookup_insert_eq. simpl.
    split; [reflexivity|]. rewrite !insert_insert_eq, Hback.
    split; [now apply insert_id|]. split.
    + apply insert_id. rewrite Hs0. f_equal. destruct s0; unfold set_participants; simpl.
      f_equal. lia.
    + rewrite delete_insert_eq. now apply delete_id.
  - assert (Hs0 : session_states m !! sid = None).
    { destruct (session_states m !! sid) as [s|] eqn:Hs; [|reflexivity].
      destruct (ok_tracked _ _ Hok _ _ Hs) as [L HL]. congruence. }
    destruct (decide (({[ws]} ∪ ∅) ∖ {[ws]} = (∅ : gset nat))) as [_|Hne]; [|set_solver].
    unfold del_user. simpl. rewrite lookup_insert_eq. simpl.
    split; [reflexivity|]. rewrite !delete_insert_eq.
    split; [now apply delete_id|]. split; now apply delete_id.
Qed.

(** *** The classroom route *)

(** The receive loop always ends by an exception. *)
Lemma loop_ends_raising {A} (c : M A) (e : exn) (m : manager) :
  exists e' m', (c ;; @raise A e) m = (Raise e', m').
Proof.
  unfold bind, raise. destruct (c m) as [[a|e'] m']; eauto.
Qed.

(** X6: once [connect] has returned, the classroom route always ends
    normally with its socket unregistered and the registry consistent,
    whatever commands the client sent before it went away and whichever of
    them raised: every way out of the receive loop goes through
    [disconnect]. *)
Theorem classroom_websocket_unregisters (ws : listener) (sid : string)
  (uid : option string) (inbox : list pydict) (m : manager) :
  registry_ok ∅ m ->
  user_data m !! ws = None ->
  S (size (user_data m)) < recursion_limit ->
  result (connect ws sid uid) m = Ok tt ->
  exists m',
    classroom_websocket ws sid uid inbox m = (Ok tt, m') /\
    registry_ok ∅ m' /\
    user_data m' !! ws = None.
Proof.
  intros Hok Hnew Hsize Hconnected.
  destruct (connect_ok ws sid uid m Hok Hnew Hsize) as [Hok1 Hsize1].
  unfold classroom_websocket, bind at 1. unfold result, exec in *.
  destruct (connect ws sid uid m) as [[[]|e] m1]; simpl in *; [|discriminate].
  assert (Hloop : keeps_registry
                    (for_each inbox (handle_message ws) ;; @raise unit ChannelError)).
  { apply keeps_bind; [|intros _; apply keeps_raise].
    apply keeps_for_each. intros message m0 Hok0 Hsize0.
    now apply handle_message_keeps_registry. }
  destruct (Hloop m1 Hok1) as [Hok2 Hsub2]; [lia|].
  unfold try_except.
  destruct (loop_ends_raising (for_each inbox (handle_message ws)) ChannelError m1)
    as (e' & m2 & Hends).
  rewrite Hends in *. simpl in *.
  destruct (disconnect_at_safe recursion_limit ∅ ws m2 Hok2)
    as (m3 & Hrun & Hok3 & _ & Hgone & _).
  { set_solver. }
  { rewrite size_empty. pose proof (map_subseteq_size _ _ Hsub2). lia. }
  exists m3. unfold disconnect. rewrite Hrun. auto.
Qed.

(** X7: when the socket is accepted but its welcome message cannot be
    sent, [connect] raises after it has registered the socket; the route
    calls [connect] outside its [try], so it raises as well and the socket
    stays registered and counted in its session. *)
Theorem classroom_websocket_failed_welcome (ws : listener) (sid : string)
  (uid : option string) (inbox : list pydict) (m : manager) :
  registry_ok ∅ m ->
  user_data m !! ws = None ->
  accept_ok ws = true ->
  send_ok (length (wire m)) ws = false ->
  let m' := exec (classroom_websocket ws sid uid inbox) m in
  result (classroom_websocket ws sid uid inbox) m = Raise ChannelError /\
  session_id <$> (user_data m' !! ws) = Some sid /\
  exists L, active_sessions m' !! sid = Some L /\ ws ∈ L.
Proof.
  forget_world. intros Hok Hnew Haccept Hclosed.
  unfold exec, result, classroom_websocket, connect, accept. rewrite Haccept.
  cbv [bind ret]. rewrite (enroll_exact ws sid uid m Hok).
  cbv [welcome bind read_state send_json]. simpl. rewrite lookup_insert_eq. simpl.
  rewrite Hclosed. simpl. rewrite !lookup_insert_eq. simpl.
  split; [reflexivity|]. split; [reflexivity|].
  eexists. split; [reflexivity|]. set_solver.
Qed.

(** *** The dispatcher *)

Lemma is_str_other (v : json) (t : string) : v <> JStr t -> is_str v t = false.
Proof.
  intros Hne. destruct v; simpl; try reflexivity.
  destruct (String.eqb_spec s t) as [->|]; [congruence|reflexivity].
Qed.

(** X8: a command whose type is none of the six the dispatcher knows
    (or that has no type at all) is dropped: nothing is sent and nothing
    changes, whether the sender is registered or not. *)
Theorem unknown_command_ignored (ws : listener) (message : pydict) (m : manager) :
  (forall t, In t known_commands -> get message "type" <> JStr t) ->
  handle_message ws message m = (Ok tt, m).
Proof.
  intros Hunknown. unfold handle_message.
  destruct (user_data m !! ws); [|reflexivity].
  rewrite !is_str_other; [reflexivity| | | | | |];
    apply Hunknown; simpl; auto 10.
Qed.

(** X9: on a consistent registry the status of a session that has
    listeners is active and reports as participants exactly the number of
    its listeners, which is at least one; the status of a session without
    listeners is inactive. *)
Theorem status_reflects_listeners (sid : string) (m : manager) :
  registry_ok ∅ m ->
  match active_sessions m !! sid with
  | Some L =>
      get (get_session_status sid m) "active" = JBool true /\
      get (get_session_status sid m) "participants" = JInt (Z.of_nat (size L)) /\
      0 < size L
  | None => get (get_session_status sid m) "active" = JBool false
  end.
Proof.
  forget_world. intros Hok. unfold get_session_status.
  destruct (active_sessions m !! sid) as [L|] eqn:HL.
  - destruct (ok_counted _ _ Hok _ _ HL) as (s & -> & Hcount).
    split; [reflexivity|]. split; [simpl; now rewrite Hcount|].
    pose proof (ok_nonempty _ _ Hok _ _ HL) as Hne.
    destruct (size L) eqn:Hsize; [|lia].
    apply size_empty_iff in Hsize. exfalso. apply Hne. set_solver.
  - destruct (session_states m !! sid) as [s|] eqn:Hs; [|reflexivity].
    destruct (ok_tracked _ _ Hok _ _ Hs) as [L HL']. congruence.
Qed.

(** X10: with every channel working, a pause followed by a resume leaves
    the session marked as not paused and changes nothing else in its
    metadata or in any table; every listener of the session gets
    [session_paused] and then [session_resumed]. *)
Theorem pause_then_resume (sid : string) (L : gset listener) (s : session_state)
  (m : manager) :
  (forall k w, send_ok k w = true) ->
  active_sessions m !! sid = Some L ->
  session_states m !! sid = Some s ->
  (handle_pause sid ;; handle_resume sid) m =
    (Ok tt,
     Manager (active_sessions m)
             (<[sid := set_is_paused false s]> (session_states m))
             (user_data m)
             (wire m ++ deliveries (elements L) session_paused_event
                     ++ deliveries (elements L) session_resumed_event)).
Proof.
  intros Hopen HL Hs.
  cbv [handle_pause handle_resume bind update_state read_state modify].
  rewrite Hs. simpl. unfold broadcast_to_session.
  erewrite broadcast_all_open; [|exact Hopen|simpl; exact HL].
  simpl. rewrite lookup_insert_eq. simpl.
  erewrite broadcast_all_open; [|exact Hopen|simpl; exact HL].
  rewrite !others_none. unfold on_air, with_wire, with_states. simpl.
  now rewrite insert_insert_eq, <- app_assoc.
Qed.

(** *** A whole [ask_question] turn *)

Lemma relay_all_open (sid : string) (L : gset listener) (ev : event) (m : manager) :
  (forall k w, send_ok k w = true) ->
  active_sessions m !! sid = Some L ->
  relay sid ev m = (Ok tt, on_air m (flat_map (deliveries (elements L)) (relayed [ev]))).
Proof.
  intros Hopen HL. unfold relay, relayed, bind, broadcast_to_session. simpl.
  rewrite (broadcast_all_delivered _ sid L ev m Hopen HL).
  destruct (has_type "visual_cue" ev); simpl.
  - destruct (_process_visual_cue ev) as [visual_event|]; simpl.
    + rewrite (broadcast_all_delivered _ sid L); [|exact Hopen|exact HL].
      now rewrite on_air_app, !app_nil_r.
    + unfold ret. now rewrite !app_nil_r.
  - unfold ret. now rewrite !app_nil_r.
Qed.

Lemma relayed_cons (ev : event) (evs : list event) :
  relayed (ev :: evs) = (relayed [ev] ++ relayed evs)%list.
Proof. unfold relayed. simpl. now rewrite app_nil_r. Qed.

Lemma relay_each_all_open (sid : string) (L : gset listener) (evs : list event)
  (m : manager) :
  (forall k w, send_ok k w = true) ->
  active_sessions m !! sid = Some L ->
  for_each evs (relay sid) m
    = (Ok tt, on_air m (flat_map (deliveries (elements L)) (relayed evs))).
Proof.
  intros Hopen. revert m. induction evs as [|ev r IH]; intros m HL.
  - simpl. unfold ret. now rewrite on_air_nil.
  - simpl for_each. unfold bind. rewrite (relay_all_open sid L ev m Hopen HL).
    rewrite IH by exact HL. rewrite on_air_app, (relayed_cons ev r), flat_map_app.
    reflexivity.
Qed.

(** X11: in a session whose channels all work, a question that is not
    empty is answered for the whole session: every listener gets
    [teaching_start], then each event of the run in the order it was yielded
    (each [visual_cue] followed by the update derived from it, if any), then
    [teaching_end]; afterwards the session holds the question, is no longer
    teaching, and its listeners, count and pause flag are what they were.
    A paused session is served in the same way. *)
Theorem ask_question_reaches_everyone (ws : listener) (sid : string)
  (message : pydict) (L : gset listener) (s : session_state) (m : manager) :
  (forall k w, send_ok k w = true) ->
  active_sessions m !! sid = Some L ->
  session_states m !! sid = Some s ->
  truthy (get_or message "question" (JStr "")) = true ->
  let question := get_or message "question" (JStr "") in
  let subject := get message "subject" in
  handle_question ws sid message m =
    (Ok tt,
     Manager (active_sessions m)
             (<[sid := SessionState (created_at s) question false
                         (participants s) (is_paused s)]> (session_states m))
             (user_data m)
             (wire m ++ flat_map (deliveries (elements L))
                          (teaching_start_event question subject
                           :: relayed (stream_explanation question subject)
                           ++ [teaching_end_event]))).
Proof.
  intros Hopen HL Hs Htruthy question subject.
  unfold handle_question. rewrite Htruthy. fold question subject.
  remember (stream_explanation question subject) as evs eqn:Hevs. clear Hevs.
  change (negb true) with false. cbv iota.
  cbv [bind update_state read_state modify try_except]. rewrite Hs. simpl.
  rewrite lookup_insert_eq. simpl. unfold broadcast_to_session.
  erewrite broadcast_all_delivered; [|exact Hopen|simpl; exact HL].
  erewrite relay_each_all_open; [|exact Hopen|simpl; exact HL].
  simpl. rewrite lookup_insert_eq. simpl.
  erewrite broadcast_all_delivered; [|exact Hopen|simpl; exact HL].
  unfold on_air, with_wire, with_states, set_is_teaching, set_current_question. simpl.
  rewrite !insert_insert_eq. f_equal. f_equal.
  rewrite <- !app_assoc. f_equal. f_equal. rewrite flat_map_app. simpl.
  now rewrite app_nil_r.
Qed.

(** *** Audio along the text *)

Lemma rev_go_snoc (acc s : string) (c : ascii) :
  PyStr.rev_go acc (s ++ String c "") = String c (PyStr.rev_go acc s).
Proof.
  revert acc. induction s as [|x s IH]; intros acc; [reflexivity|].
  change (PyStr.rev_go (String x acc) (s ++ String c "")
          = String c (PyStr.rev_go (String x acc) s)).
  apply IH.
Qed.

Lemma rev_snoc (s : string) (c : ascii) :
  PyStr.rev (s ++ String c "") = String c (PyStr.rev s).
Proof. apply rev_go_snoc. Qed.

(** A buffer that ends in a space does not end a sentence. *)
Lemma spaced_is_open (text_buffer w : string) :
  ends_sentence (text_buffer ++ (w ++ " ")) = false.
Proof.
  rewrite <- append_assoc. unfold ends_sentence.
  change " " with (String space ""). now rewrite rev_snoc.
Qed.

Lemma emit_words_paced (k : nat) (words : list string) :
  Forall paced_or_silent (emit_words k words).
Proof.
  revert k. induction words as [|w r IH]; intros k; simpl; [constructor|].
  constructor.
  - split; [reflexivity|]. intros _. exists w. reflexivity.
  - destruct (_check_emphasis w); simpl; [constructor|]; try apply IH.
    split; [reflexivity|]. discriminate.
Qed.

Lemma process_chunk_paced (b : buffers) (content : string) :
  Forall paced_or_silent (fst (process_chunk b content)).
Proof.
  rewrite process_chunk_events. apply Forall_app. split.
  - unfold pace_words. destruct (has_word_break _); simpl;
      [apply emit_words_paced|constructor].
  - unfold close_sentence. destruct (has_terminator _); simpl; [|constructor].
    destruct (_extract_visual_cue _); simpl; repeat constructor; discriminate.
Qed.

(** The run as [stream_with_audio] sees it: paced events, then the exit. *)
Lemma stream_loop_paced (cs : list (option string)) (fail : option string)
  (b : buffers) :
  exists body,
    Forall paced_or_silent body /\
    stream_loop cs fail b =
      (body ++ match fail with
               | Some message => [error_event message]
               | None => finish (buffers_after cs b)
               end)%list.
Proof.
  revert b. induction cs as [|[content|] r IH]; intros b; simpl.
  - exists []. split; [constructor|]. reflexivity.
  - destruct (PyStr.is_empty content); [apply IH|].
    pose proof (process_chunk_paced b content) as Hpaced.
    destruct (process_chunk b content) as [evs b'] eqn:Hstep. simpl in *.
    destruct (IH b') as (body & Hbody & ->).
    exists (evs ++ body)%list. split; [now apply Forall_app|].
    now rewrite <- app_assoc.
  - apply IH.
Qed.

(** Over paced events the audio loop adds nothing and keeps buffering. *)
Lemma audio_loop_paced (api_key voice : string)
  (synth : string -> string -> option string) (body rest : list event)
  (text_buffer : string) :
  Forall paced_or_silent body ->
  audio_loop api_key voice synth (body ++ rest) text_buffer =
    (body ++ audio_loop api_key voice synth rest (text_buffer ++ spoken body))%list.
Proof.
  intros Hbody. revert text_buffer.
  induction Hbody as [|ev body [_ Hev] _ IH]; intros text_buffer; simpl.
  - now rewrite append_empty_r.
  - destruct (has_type "text" ev) eqn:Htext.
    + destruct (Hev eq_refl) as [w Hw]. rewrite Hw, spaced_is_open, IH.
      now rewrite append_assoc.
    + now rewrite IH.
Qed.

Lemma spoken_app (a b : list event) : spoken (a ++ b) = spoken a ++ spoken b.
Proof.
  induction a as [|ev a IH]; simpl; [reflexivity|].
  destruct (has_type "text" ev); [|exact IH]. now rewrite IH, append_assoc.
Qed.

(** X12: [stream_with_audio] yields the events of the text run, in their
    order, and at most one [audio] event, which comes just before the last
    event. No audio is produced along the way, because every paced word ends
    in a space and so never completes a sentence for the audio buffer; audio
    is produced only when the source is exhausted, a word is left in the
    buffer, and all the text of the run then ends in ['.'], ['!'], ['?'] or a
    newline. It is then the audio of the text of the whole run, provided a
    key is configured and the synthesis returns a non-empty chunk. *)
Theorem audio_only_at_the_end (api_key default_voice : string)
  (synth : string -> string -> option string)
  (question subject : json) (voice_id : option string) :
  let src := explanation_source question subject in
  let plain := stream_explanation question subject in
  let voice := match voice_id with
               | Some v => if PyStr.is_empty v then default_voice else v
               | None => default_voice
               end in
  let remaining := word_buffer (buffers_after (chunks src) initial_buffers) in
  exists (before : list event) (final : event),
    plain = (before ++ [final])%list /\
    stream_with_audio api_key default_voice synth question subject voice_id =
      (before
       ++ match failure src with
          | Some _ => []
          | None =>
              if PyStr.is_empty remaining then []
              else if ends_sentence (spoken plain)
                   then audio_for api_key voice synth (spoken plain)
                   else []
          end
       ++ [final])%list.
Proof.
  intros src plain voice remaining.
  unfold stream_with_audio. fold voice. fold plain. subst plain.
  unfold stream_explanation. fold src.
  destruct (stream_loop_paced (chunks src) (failure src) initial_buffers)
    as (body & Hbody & ->).
  assert (Hstart : Forall paced_or_silent (start_event question :: body)).
  { constructor; [split; [reflexivity|discriminate]|exact Hbody]. }
  change (start_event question :: (body ++ ?t)%list)
    with ((start_event question :: body) ++ t)%list.
  set (pre := start_event question :: body) in *.
  rewrite (audio_loop_paced _ _ _ pre _ "" Hstart). simpl (String.append "" _).
  destruct (failure src) as [message|].
  - exists pre, (error_event message). split; [reflexivity|]. reflexivity.
  - unfold finish. fold remaining.
    destruct (PyStr.is_empty remaining) eqn:Hrem.
    + exists pre, (complete_event (full_text (buffers_after (chunks src) initial_buffers))).
      split; [reflexivity|]. reflexivity.
    + exists (pre ++ [flush_event remaining])%list,
             (complete_event (full_text (buffers_after (chunks src) initial_buffers))).
      split; [now rewrite <- app_assoc|].
      assert (Hspoken : spoken ((pre ++ [flush_event remaining]
                                 ++ [complete_event
                                       (full_text (buffers_after (chunks src)
                                                     initial_buffers))])%list)
                        = spoken pre ++ remaining).
      { rewrite spoken_app. simpl. change (content_of (flush_event remaining))
          with remaining. now rewrite append_empty_r. }
      simpl app at 2. rewrite Hspoken.
      cbn [audio_loop app]. change (has_type "text" (flush_event remaining)) with true.
      change (has_type "text" (complete_event _)) with false. cbv iota.
      change (content_of (flush_event remaining)) with remaining.
      change (String.append "" (spoken body)) with (spoken pre).
      destruct (ends_sentence (spoken pre ++ remaining)); simpl;
        now rewrite <- !app_assoc.
Qed.

(** *** Words *)

Lemma spaceless_snoc (s : string) (a : ascii) :
  spaceless s = true -> PyStr.is_space a = false ->
  spaceless (s ++ String a "") = true.
Proof.
  intros Hs Ha. induction s as [|x s IH].
  - change (negb (PyStr.is_space a) && true = true). now rewrite Ha.
  - change (negb (PyStr.is_space x) && spaceless (s ++ String a "") = true).
    simpl in Hs. apply andb_true_iff in Hs as [Hx Hs]. now rewrite Hx, IH.
Qed.

Lemma split_go_clean (cur s : string) :
  spaceless cur = true ->
  Forall (fun w => w <> "" /\ spaceless w = true) (PyStr.split_go cur s).
Proof.
  revert cur. induction s as [|a r IH]; intros cur Hcur; simpl.
  - destruct cur; simpl; [constructor|]. constructor; [|constructor].
    split; [discriminate|exact Hcur].
  - destruct (PyStr.is_space a) eqn:Ha.
    + destruct cur; simpl; [now apply IH|].
      constructor; [split; [discriminate|exact Hcur]|now apply IH].
    + apply IH. now apply spaceless_snoc.
Qed.

Lemma Forall_removelast {A} (P : A -> Prop) (l : list A) :
  Forall P l -> Forall P (List.removelast l).
Proof.
  induction 1 as [|x l Hx Hl IH]; simpl; [constructor|].
  destruct l; [constructor|]. constructor; assumption.
Qed.

Lemma Forall_last {A} (P : A -> Prop) (l : list A) (d : A) :
  Forall P l -> P d -> P (List.last l d).
Proof.
  induction 1 as [|x l Hx Hl IH]; intros Hd; simpl; [exact Hd|].
  destruct l; [exact Hx|]. now apply IH.
Qed.

(** X13: every word the pacing block yields is a non-empty run of
    characters without whitespace, followed by exactly one space; and when
    the block has run, what it keeps in the word buffer contains no
    whitespace either. *)
Theorem paced_words_are_clean (wb : string) (k : nat) :
  has_word_break wb = true ->
  Forall (fun ev => has_type "text" ev = true ->
                    exists w, content_of ev = w ++ " " /\ w <> "" /\ spaceless w = true)
         (fst (fst (pace_words wb k))) /\
  spaceless (snd (fst (pace_words wb k))) = true.
Proof.
  intros Hbreak. unfold pace_words. rewrite Hbreak. simpl.
  pose proof (split_go_clean "" wb eq_refl) as Hclean. fold (PyStr.split wb) in Hclean.
  split.
  - apply Forall_removelast in Hclean. revert k.
    induction Hclean as [|w r [Hw Hs] _ IH]; intros k; simpl; [constructor|].
    constructor; [intros _; exists w; auto|].
    destruct (_check_emphasis w); simpl; [constructor; [discriminate|]|]; apply IH.
  - apply (Forall_last (fun w => spaceless w = true)); [|reflexivity].
    eapply List.Forall_impl; [|exact Hclean]. now intros w [_ Hs].
Qed.

Lemma contains_char_app (c : ascii) (a b : string) :
  PyStr.contains_char c (a ++ b) = PyStr.contains_char c a || PyStr.contains_char c b.
Proof.
  induction a as [|x a IH]; [reflexivity|].
  change (PyStr.eqb_ascii x c || PyStr.contains_char c (a ++ b)
          = PyStr.eqb_ascii x c || PyStr.contains_char c a || PyStr.contains_char c b).
  now rewrite IH, orb_assoc.
Qed.

Lemma split_go_spaceless (cur w rest : string) :
  spaceless w = true ->
  PyStr.split_go cur (w ++ rest) = PyStr.split_go (cur ++ w) rest.
Proof.
  revert cur. induction w as [|a w IH]; intros cur Hw.
  - now rewrite append_empty_r.
  - simpl in Hw. apply andb_true_iff in Hw as [Ha Hw].
    apply negb_true_iff in Ha.
    change (PyStr.split_go cur (String a (w ++ rest))
            = PyStr.split_go (cur ++ String a w) rest).
    simpl. rewrite Ha, IH by exact Hw.
    f_equal. rewrite append_assoc. reflexivity.
Qed.

(** X14: a space at the end of a fragment is lost. When the word buffer
    together with the fragment's word [w] is a single word, the fragment
    [w ++ " "] yields no [text] event, and the buffer afterwards holds that
    word without the space, so that the next fragment is glued to it. *)
Theorem trailing_space_is_lost (b : buffers) (w : string) :
  let held := word_buffer b ++ w in
  held <> "" ->
  spaceless held = true ->
  List.filter (has_type "text") (fst (process_chunk b (w ++ " "))) = [] /\
  word_buffer (snd (process_chunk b (w ++ " "))) = held.
Proof.
  intros held Hne Hclean.
  assert (Hpace : pace_words (word_buffer b ++ (w ++ " ")) (paced b)
                  = ([], held, (paced b + 0)%nat)).
  { unfold pace_words. rewrite <- append_assoc. fold held.
    assert (Hbreak : has_word_break (held ++ " ") = true).
    { unfold has_word_break. rewrite contains_char_app.
      change (PyStr.contains_char space " ") with true. now rewrite orb_true_r. }
    rewrite Hbreak. unfold PyStr.split.
    rewrite (split_go_spaceless "" held " " Hclean). simpl.
    destruct held; [congruence|]. reflexivity. }
  split.
  - rewrite process_chunk_events, Hpace. simpl.
    apply filter_none. eapply List.Forall_impl; [|apply close_sentence_marks].
    intros ev [_ Hmark]. unfold is_sentence_mark in Hmark.
    unfold has_type in *. destruct (get ev "type"); try reflexivity. simpl in *.
    destruct (String.eqb_spec s "text") as [->|]; [discriminate|reflexivity].
  - unfold process_chunk. rewrite Hpace.
    destruct (close_sentence _). reflexivity.
Qed.

(** *** Emphasis *)

Lemma lower_ascii_idempotent (a : ascii) :
  PyStr.lower_ascii (PyStr.lower_ascii a) = PyStr.lower_ascii a.
Proof. destruct a as [[] [] [] [] [] [] [] []]; reflexivity. Qed.

Lemma lower_idempotent (s : string) : PyStr.lower (PyStr.lower s) = PyStr.lower s.
Proof.
  induction s as [|a s IH]; simpl; [reflexivity|].
  now rewrite lower_ascii_idempotent, IH.
Qed.

Lemma lower_app (a b : string) :
  PyStr.lower (a ++ b) = PyStr.lower a ++ PyStr.lower b.
Proof.
  induction a as [|x a IH]; [reflexivity|].
  change (String (PyStr.lower_ascii x) (PyStr.lower (a ++ b))
          = String (PyStr.lower_ascii x) (PyStr.lower a ++ PyStr.lower b)).
  now rewrite IH.
Qed.

Lemma lower_ascii_punctuation (a : ascii) :
  PyStr.contains_char a ".,!?" = true -> PyStr.lower_ascii a = a.
Proof.
  destruct a as [[] [] [] [] [] [] [] []]; intros H;
    first [reflexivity | vm_compute in H; discriminate H].
Qed.

Lemma lower_punctuation (p : string) :
  is_punctuation p = true -> PyStr.lower p = p.
Proof.
  unfold is_punctuation. induction p as [|a p IH]; [reflexivity|].
  intros H. change (PyStr.contains_char a ".,!?"
                    && all_chars (fun a => PyStr.contains_char a ".,!?") p = true) in H.
  apply andb_true_iff in H as [Ha Hp].
  change (String (PyStr.lower_ascii a) (PyStr.lower p) = String a p).
  now rewrite (IH Hp), (lower_ascii_punctuation a Ha).
Qed.

Lemma rev_go_app (acc s : string) : PyStr.rev_go acc s = PyStr.rev s ++ acc.
Proof.
  unfold PyStr.rev. revert acc. induction s as [|x s IH]; intros acc; simpl;
    [reflexivity|].
  rewrite (IH (String x acc)), (IH (String x "")), append_assoc. reflexivity.
Qed.

Lemma rev_app (a b : string) : PyStr.rev (a ++ b) = PyStr.rev b ++ PyStr.rev a.
Proof.
  induction a as [|x a IH].
  - now rewrite append_empty_r.
  - change (PyStr.rev_go (String x "") (a ++ b)
            = PyStr.rev b ++ PyStr.rev_go (String x "") a).
    rewrite !rev_go_app, IH, append_assoc. reflexivity.
Qed.

Lemma all_chars_app (p : ascii -> bool) (a b : string) :
  all_chars p (a ++ b) = all_chars p a && all_chars p b.
Proof.
  induction a as [|x a IH]; [reflexivity|].
  change (p x && all_chars p (a ++ b) = p x && all_chars p a && all_chars p b).
  now rewrite IH, andb_assoc.
Qed.

Lemma all_chars_rev (p : ascii -> bool) (s : string) :
  all_chars p (PyStr.rev s) = all_chars p s.
Proof.
  induction s as [|x s IH]; [reflexivity|].
  change (String x s) with (String x "" ++ s) at 1.
  rewrite rev_app, all_chars_app, IH. simpl. rewrite andb_true_r. apply andb_comm.
Qed.

Lemma lstrip_prefix (p : ascii -> bool) (pre s : string) :
  all_chars p pre = true ->
  PyStr.lstrip_by p (pre ++ s) = PyStr.lstrip_by p s.
Proof.
  induction pre as [|x pre IH]; intros Hpre; [reflexivity|].
  simpl in Hpre. apply andb_true_iff in Hpre as [Hx Hpre].
  change (PyStr.lstrip_by p (String x (pre ++ s)) = PyStr.lstrip_by p s).
  simpl. rewrite Hx. now apply IH.
Qed.

Lemma lstrip_all (p : ascii -> bool) (s : string) :
  all_chars p s = true -> PyStr.lstrip_by p s = "".
Proof.
  intros Hs. rewrite <- (append_empty_r s). now rewrite lstrip_prefix.
Qed.

Lemma lstrip_suffix (p : ascii -> bool) (s post : string) :
  all_chars p post = true ->
  PyStr.lstrip_by p (s ++ post) =
    if PyStr.is_empty (PyStr.lstrip_by p s) then "" else PyStr.lstrip_by p s ++ post.
Proof.
  intros Hpost. induction s as [|x s IH].
  - simpl. now apply lstrip_all.
  - change (PyStr.lstrip_by p (String x (s ++ post))
            = if PyStr.is_empty (PyStr.lstrip_by p (String x s)) then ""
              else PyStr.lstrip_by p (String x s) ++ post).
    simpl. destruct (p x); [exact IH|reflexivity].
Qed.

(** Characters the strip removes, before and after, do not matter. *)
Lemma strip_by_around (p : ascii -> bool) (pre s post : string) :
  all_chars p pre = true -> all_chars p post = true ->
  PyStr.strip_by p (pre ++ s ++ post) = PyStr.strip_by p s.
Proof.
  intros Hpre Hpost. unfold PyStr.strip_by.
  rewrite (lstrip_prefix p pre _ Hpre), (lstrip_suffix p s post Hpost).
  destruct (PyStr.lstrip_by p s) as [|x t] eqn:Hs; [reflexivity|].
  cbn [PyStr.is_empty]. rewrite rev_app, lstrip_prefix; [reflexivity|].
  now rewrite all_chars_rev.
Qed.

(** X15: emphasis does not depend on the case of the word nor on any
    ['.'], [','], ['!'] or ['?'] around it: such characters before and after
    a word, and upper-case letters in it, give the same answer as the bare
    word in lower case. *)
Theorem emphasis_ignores_case_and_punctuation (pre w post : string) :
  is_punctuation pre = true ->
  is_punctuation post = true ->
  _check_emphasis (pre ++ w ++ post) = _check_emphasis (PyStr.lower w).
Proof.
  intros Hpre Hpost. unfold _check_emphasis, PyStr.strip_chars.
  rewrite !lower_app, lower_idempotent.
  rewrite (lower_punctuation pre Hpre), (lower_punctuation post Hpost).
  now rewrite (strip_by_around _ pre (PyStr.lower w) post Hpre Hpost).
Qed.

(** X16: every [animate] cue the extractor can return names an animation
    that has its own entry in the dispatcher's table, so the update derived
    from such a cue never carries the generic descriptor. *)
Theorem animate_cues_have_descriptors (sentence : string) (c : pydict) :
  _extract_visual_cue sentence = Some c ->
  get c "action" = JStr "animate" ->
  exists kind descriptor,
    get (as_dict (get c "data")) "type" = JStr kind /\
    table_get kind animations = Some descriptor /\
    _get_animation_data (JStr kind) = descriptor /\
    descriptor <> generic_animation.
Proof.
  unfold _extract_visual_cue. destruct (inline_marker sentence) as [c'|] eqn:Hm.
  - intros [= <-]. unfold inline_marker in Hm.
    destruct (PyStr.contains _ _); [|discriminate].
    destruct (_ >? _)%Z; [|discriminate].
    injection Hm as <-. discriminate.
  - unfold visual_triggers. simpl first_trigger.
    repeat (destruct (PyStr.contains _ _);
            [intros [= <-] Haction;
             first [ discriminate Haction
                   | do 2 eexists; split; [reflexivity|];
                     split; [reflexivity|]; split; [reflexivity|discriminate] ] |]).
    discriminate.
Qed.

(** *** The quick-teach route *)

Lemma private_ret (ws : listener) {A} (a : A) : private_to ws (ret a).
Proof. intros m. exists []. simpl. now rewrite on_air_nil. Qed.

Lemma private_raise (ws : listener) {A} (e : exn) : private_to ws (@raise A e).
Proof. intros m. exists []. simpl. now rewrite on_air_nil. Qed.

Lemma private_bind (ws : listener) {A B} (c : M A) (k : A -> M B) :
  private_to ws c -> (forall a, private_to ws (k a)) -> private_to ws (bind c k).
Proof.
  intros Hc Hk m. unfold bind. destruct (Hc m) as (s1 & Hm1 & Hs1).
  destruct (c m) as [[a|e] m1]; simpl in *; [|eauto].
  destruct (Hk a m1) as (s2 & Hm2 & Hs2). exists (s1 ++ s2)%list.
  rewrite Hm2, Hm1, on_air_app. split; [reflexivity|]. now apply Forall_app.
Qed.

Lemma private_try (ws : listener) {A} (body : M A) (handler : exn -> M A) :
  private_to ws body -> (forall e, private_to ws (handler e)) ->
  private_to ws (try_except body handler).
Proof.
  intros Hbody Hhandler m. unfold try_except. destruct (Hbody m) as (s1 & Hm1 & Hs1).
  destruct (body m) as [[a|e] m1]; simpl in *; [eauto|].
  destruct (Hhandler e m1) as (s2 & Hm2 & Hs2). exists (s1 ++ s2)%list.
  rewrite Hm2, Hm1, on_air_app. split; [reflexivity|]. now apply Forall_app.
Qed.

Lemma private_for_each (ws : listener) {A} (l : list A) (body : A -> M unit) :
  (forall x, private_to ws (body x)) -> private_to ws (for_each l body).
Proof.
  intros Hbody. induction l as [|x r IH]; simpl.
  - apply private_ret.
  - apply private_bind; [apply Hbody|]. intros _. exact IH.
Qed.

Lemma private_send_json (ws : listener) (ev : event) : private_to ws (send_json ws ev).
Proof.
  intros m. exists [Delivery ws ev (send_ok (length (wire m)) ws)].
  split; [reflexivity|]. now constructor.
Qed.

(** X17: the quick-teach route never touches the classroom registry and
    talks to its own socket only; and once the socket is accepted it ends
    normally, whatever the client sent and whenever the channel broke. *)
Theorem quick_teach_is_private (ws : listener) (inbox : list pydict) (m : manager) :
  exists sends,
    exec (quick_teach_websocket ws inbox) m = on_air m sends /\
    Forall (fun d => to d = ws) sends /\
    result (quick_teach_websocket ws inbox) m
      = if accept_ok ws then Ok tt else Raise ChannelError.
Proof.
  assert (Hloop : private_to ws
            (try_except
               (for_each inbox (quick_teach_turn ws) ;; @raise unit ChannelError)
               (fun _ => ret tt))).
  { apply private_try; [|intros _; apply private_ret].
    apply private_bind; [|intros _; apply private_raise].
    apply private_for_each. intros data. unfold quick_teach_turn.
    destruct (negb _); [apply private_send_json|].
    apply private_for_each, private_send_json. }
  assert (Hends : forall m0,
            fst (try_except
                   (for_each inbox (quick_teach_turn ws) ;; @raise unit ChannelError)
                   (fun _ => ret tt) m0) = Ok tt).
  { intros m0. unfold try_except.
    destruct (loop_ends_raising (for_each inbox (quick_teach_turn ws)) ChannelError m0)
      as (e & m' & ->). reflexivity. }
  unfold exec, result, quick_teach_websocket, accept.
  destruct (accept_ok ws).
  - destruct (Hloop m) as (sends & Hm & Hsends). exists sends.
    unfold bind at 1. unfold bind at 2. unfold ret at 1. unfold ret at 2.
    split; [exact Hm|]. split; [exact Hsends|]. apply Hends.
  - exists []. rewrite on_air_nil. repeat split. constructor.
Qed.

Lemma send_each_all_open (ws : listener) (evs : list event) (m : manager) :
  (forall k w, send_ok k w = true) ->
  for_each evs (send_json ws) m = (Ok tt, on_air m (flat_map (deliveries [ws]) evs)).
Proof.
  intros Hopen. revert m. induction evs as [|ev r IH]; intros m.
  - simpl. unfold ret. now rewrite on_air_nil.
  - simpl for_each. unfold bind, send_json at 1. rewrite Hopen.
    fold (on_air m [Delivery ws ev true]). rewrite IH, on_air_app. reflexivity.
Qed.

(** X18: over a working channel the quick-teach client gets, for each
    message it sent and in that order, either the single "Question is
    required" error (question absent or empty) or every event of the run
    for its question, from [start] to the terminal event. *)
Theorem quick_teach_answers_in_order (ws : listener) (inbox : list pydict)
  (m : manager) :
  accept_ok ws = true ->
  (forall k w, send_ok k w = true) ->
  quick_teach_websocket ws inbox m
    = (Ok tt, on_air m (flat_map (deliveries [ws]) (flat_map quick_answer inbox))).
Proof.
  intros Haccept Hopen.
  assert (Hloop : forall m0,
            for_each inbox (quick_teach_turn ws) m0
            = (Ok tt, on_air m0 (flat_map (deliveries [ws]) (flat_map quick_answer inbox)))).
  { induction inbox as [|data r IH]; intros m0.
    - simpl. unfold ret. now rewrite on_air_nil.
    - simpl for_each. unfold bind.
      assert (Hturn : quick_teach_turn ws data m0
                      = (Ok tt, on_air m0 (flat_map (deliveries [ws]) (quick_answer data)))).
      { unfold quick_teach_turn, quick_answer.
        destruct (truthy (get data "question")).
        - change (negb true) with false. cbv iota. now apply send_each_all_open.
        - change (negb false) with true. cbv iota. unfold send_json.
          rewrite Hopen. unfold on_air. simpl. reflexivity. }
      rewrite Hturn, IH, on_air_app. f_equal. f_equal.
      simpl flat_map. now rewrite flat_map_app. }
  unfold quick_teach_websocket, accept. rewrite Haccept.
  cbv [bind ret try_except raise]. now rewrite Hloop.
Qed.

(** *** Feedback, chat and visual requests *)

(** X19: feedback from a registered socket is acknowledged to that
    socket alone: exactly one transport call, no broadcast, no change to any
    table, whatever the feedback says. *)
Theorem feedback_is_private (ws : listener) (info : user_info) (message : pydict)
  (m : manager) :
  user_data m !! ws = Some info ->
  get message "type" = JStr "feedback" ->
  handle_message ws message m =
    (if send_ok (length (wire m)) ws then Ok tt else Raise ChannelError,
     on_air m [Delivery ws feedback_received_event (send_ok (length (wire m)) ws)]).
Proof.
  intros Hinfo Htype. unfold handle_message. rewrite Hinfo, Htype. reflexivity.
Qed.

(** X20: with every channel working, a chat message from a registered
    socket goes to every listener of its session, the sender included, with
    the text as sent (the empty string if there is none). It carries the
    sender's user id, and for a sender that connected without one it carries
    null: the ["anonymous"] default of the code is never used for a
    registered socket. *)
Theorem chat_reaches_everyone (ws : listener) (info : user_info) (message : pydict)
  (L : gset listener) (m : manager) :
  (forall k w, send_ok k w = true) ->
  user_data m !! ws = Some info ->
  active_sessions m !! session_id info = Some L ->
  get message "type" = JStr "chat" ->
  handle_message ws message m =
    (Ok tt,
     on_air m (deliveries (elements L)
                 (chat_message_event
                    (match user_id info with Some u => JStr u | None => JNull end)
                    (get_or message "message" (JStr ""))
                    (utcnow (length (wire m)))))).
Proof.
  intros Hopen Hinfo HL Htype. unfold handle_message. rewrite Hinfo, Htype.
  simpl. unfold handle_chat. rewrite Hinfo. unfold broadcast_to_session.
  now rewrite (broadcast_all_delivered _ _ L _ m Hopen HL).
Qed.

(** X21: with every channel working, a visual request from a registered
    socket first tells every listener of the session that a visual is being
    generated; then, when the generator answers, every listener gets
    [visual_ready] with the generator's type and URL and the concept asked
    for, and when the generator fails only the requester gets an error. In
    both cases the dispatcher returns normally and no table changes. *)
Theorem visual_request_outcomes (ws : listener) (info : user_info)
  (message : pydict) (L : gset listener) (m : manager) :
  (forall k w, send_ok k w = true) ->
  user_data m !! ws = Some info ->
  active_sessions m !! session_id info = Some L ->
  get message "type" = JStr "request_visual" ->
  let visual_type := get_or message "visual_type" (JStr "animation") in
  let concept := get_or message "concept" (JStr "") in
  handle_message ws message m =
    (Ok tt,
     on_air m (deliveries (elements L) (visual_loading_event visual_type concept)
               ++ match generate_visual concept visual_type with
                  | Some res => deliveries (elements L) (visual_ready_event res concept)
                  | None => [Delivery ws visual_failed_event true]
                  end)).
Proof.
  intros Hopen Hinfo HL Htype visual_type concept.
  unfold handle_message. rewrite Hinfo, Htype. simpl.
  unfold handle_visual_request. fold visual_type concept.
  unfold bind, try_except, broadcast_to_session.
  rewrite (broadcast_all_delivered _ _ L _ m Hopen HL).
  destruct (generate_visual concept visual_type) as [res|].
  - rewrite (broadcast_all_delivered _ _ L); [|exact Hopen|exact HL].
    unfold on_air, with_wire. simpl. now rewrite <- app_assoc.
  - unfold raise, send_json. rewrite Hopen.
    unfold on_air, with_wire. simpl. now rewrite <- app_assoc.
Qed.

(** *** Cues and pauses *)

Lemma cue_then_pause_app (a b : list event) :
  Forall (fun ev => has_type "visual_cue" ev = false) a ->
  cue_then_pause b -> cue_then_pause (a ++ b).
Proof.
  intros Ha Hb. induction Ha as [|ev a Hev _ IH]; simpl; [exact Hb|].
  split; [intros H; congruence|exact IH].
Qed.

Lemma cue_then_pause_marks (s : string) (rest : list event) :
  cue_then_pause rest -> cue_then_pause (fst (close_sentence s) ++ rest).
Proof.
  intros Hrest. unfold close_sentence. destruct (has_terminator s); simpl;
    [|exact Hrest].
  destruct (_extract_visual_cue s); simpl.
  - split; [intros _; eauto|]. split; [discriminate|exact Hrest].
  - split; [discriminate|exact Hrest].
Qed.

Lemma words_are_no_cues (wb : string) (k : nat) :
  Forall (fun ev => has_type "visual_cue" ev = false) (fst (fst (pace_words wb k))).
Proof.
  eapply List.Forall_impl; [|apply pace_words_plain].
  intros ev [_ Hmark]. unfold is_sentence_mark in Hmark.
  now apply orb_false_iff in Hmark as [Hcue _].
Qed.

Lemma stream_loop_cues (cs : list (option string)) (fail : option string)
  (b : buffers) :
  cue_then_pause (stream_loop cs fail b).
Proof.
  revert b. induction cs as [|[content|] r IH]; intros b; simpl.
  - destruct fail; simpl; [split; [discriminate|exact I]|].
    unfold finish. destruct (PyStr.is_empty _); simpl;
      repeat split; discriminate.
  - destruct (PyStr.is_empty content); [apply IH|].
    pose proof (process_chunk_events b content) as Hevents.
    destruct (process_chunk b content) as [evs b'] eqn:Hstep. simpl in *.
    rewrite Hevents, <- app_assoc.
    apply cue_then_pause_app; [apply words_are_no_cues|].
    apply cue_then_pause_marks, IH.
  - apply IH.
Qed.

(** X22: in every run each [visual_cue] event is directly followed by
    the pause of the sentence it was found in. *)
Theorem every_cue_is_followed_by_a_pause (question subject : json)
  (before after : list event) (ev : event) :
  stream_explanation question subject = (before ++ ev :: after)%list ->
  has_type "visual_cue" ev = true ->
  exists after', after = pause_event :: after'.
Proof.
  intros Hsplit Hcue.
  assert (Hall : cue_then_pause (stream_explanation question subject)).
  { unfold stream_explanation. simpl. split; [discriminate|apply stream_loop_cues]. }
  rewrite Hsplit in Hall. clear Hsplit.
  induction before as [|x before IH]; simpl in Hall.
  - destruct Hall as [Hnext _]. now apply Hnext.
  - destruct Hall as [_ Hrest]. now apply IH.
Qed.

End World.

(** ** The properties on concrete inputs *)

(** Two listeners in one session, both welcomed. *)
Lemma classroom_ok :
  registry_ok ∅
    (run_ops fixed_date all_open accepts_all 1000
       [Connect 1 "abc12345" None; Connect 2 "abc12345" (Some "bob")] empty_manager).
Proof.
  apply run_ops_ok.
  - apply registry_ok_empty.
  - vm_compute. repeat split; reflexivity.
  - vm_compute. lia.
Qed.

Lemma handle_message_unregistered_witness :
  handle_message steady_clock fixed_date (says [Some "Hi."]) no_visuals plain_str
    all_open 1000 7 (ask "What is gravity?") empty_manager = (Ok tt, empty_manager).
Proof.
  apply (handle_message_unregistered steady_clock fixed_date (says [Some "Hi."])
           no_visuals plain_str all_open 1000 7 (ask "What is gravity?") empty_manager).
  reflexivity.
Defined.

Lemma disconnect_unregistered_witness :
  disconnect all_open 1000 7 empty_manager = (Ok tt, empty_manager).
Proof.
  apply (disconnect_unregistered all_open 1000 7 empty_manager).
  - discriminate.
  - reflexivity.
Defined.

Lemma empty_question_rejected_witness :
  let m := run_ops fixed_date all_open accepts_all 1000
             [Connect 1 "abc12345" None] empty_manager in
  let m' := exec (handle_question steady_clock (says [Some "Hi."]) all_open 1000
                    1 "abc12345" (ask "")) m in
  wire m' = (wire m ++ [Delivery 1 question_required_event
                          (all_open (length (wire m)) 1)])%list /\
  active_sessions m' = active_sessions m /\
  session_states m' = session_states m /\
  user_data m' = user_data m.
Proof.
  apply (empty_question_rejected steady_clock (says [Some "Hi."]) all_open 1000
           1 "abc12345" (ask "")).
  reflexivity.
Defined.

Lemma visual_cue_dispatch_witness :
  let m := run_ops fixed_date all_open accepts_all 1000
             [Connect 1 "abc12345" None; Connect 2 "abc12345" (Some "bob")]
             empty_manager in
  let c := cue "animate" [("type", JStr "pendulum_swing")] in
  let ev := visual_cue_event c in
  let data := as_dict (get c "data") in
  (get c "action" = JStr "animate" /\
   exists kind,
     get data "type" = JStr kind /\
     relay (closed_for 2) 1000 "abc12345" ev m =
       (broadcast_to_session (closed_for 2) 1000 "abc12345" ev None ;;
        broadcast_to_session (closed_for 2) 1000 "abc12345"
          [ ("type", JStr "visual_update"); ("visual_type", JStr "animation");
            ("animation", JStr kind);
            ("data", JDict match table_get kind animations with
                           | Some descriptor => descriptor
                           | None => generic_animation
                           end) ] None) m) \/
  (get c "action" = JStr "show_visual" /\
   exists description,
     get data "description" = JStr description /\
     relay (closed_for 2) 1000 "abc12345" ev m =
       (broadcast_to_session (closed_for 2) 1000 "abc12345" ev None ;;
        broadcast_to_session (closed_for 2) 1000 "abc12345"
          [ ("type", JStr "visual_update"); ("visual_type", JStr "image");
            ("description", JStr description) ] None) m) \/
  ((get c "action" = JStr "show_graph" \/ get c "action" = JStr "draw" \/
    get c "action" = JStr "show_diagram") /\
   relay (closed_for 2) 1000 "abc12345" ev m
   = broadcast_to_session (closed_for 2) 1000 "abc12345" ev None m).
Proof.
  apply (visual_cue_dispatch (closed_for 2) 1000 "The pendulum swings."
           (cue "animate" [("type", JStr "pendulum_swing")]) "abc12345").
  vm_compute. reflexivity.
Defined.

Lemma participants_match_listeners_witness :
  let m := run_ops fixed_date (closed_for 2) accepts_all 1000
             (take 3 [Connect 1 "abc12345" None; Connect 2 "abc12345" (Some "bob");
                      Connect 3 "xyz" None; Disconnect 1; Disconnect 3])
             empty_manager in
  (forall sid L, active_sessions m !! sid = Some L ->
     L <> ∅ /\
     exists s, session_states m !! sid = Some s /\
               participants s = Z.of_nat (size L)) /\
  (forall sid, is_Some (session_states m !! sid) ->
               is_Some (active_sessions m !! sid)).
Proof.
  apply (participants_match_listeners fixed_date (closed_for 2) accepts_all 1000
           [Connect 1 "abc12345" None; Connect 2 "abc12345" (Some "bob");
            Connect 3 "xyz" None; Disconnect 1; Disconnect 3] 3).
  - vm_compute. repeat split; reflexivity.
  - vm_compute. repeat (split; [lia|]). exact I.
Defined.

Lemma broadcast_fan_out_witness :
  let m := run_ops fixed_date all_open accepts_all 1000
             [Connect 1 "abc12345" None; Connect 2 "abc12345" (Some "bob")]
             empty_manager in
  let sends := attempts (closed_for 2) (length (wire m))
                 (elements ({[1; 2]} : gset nat)) pause_event None in
  exists (m' : manager) (later : list delivery),
    fan_out (closed_for 2) (elements ({[1; 2]} : gset nat)) pause_event None m
      = (Ok (failed sends), on_air m sends) /\
    broadcast_to_session (closed_for 2) 1000 "abc12345" pause_event None m = (Ok tt, m') /\
    m' = exec (for_each (failed sends) (disconnect (closed_for 2) 1000)) (on_air m sends) /\
    wire m' = (wire m ++ sends ++ later)%list /\
    map to sends = List.filter (fun ws => bool_decide (Some ws <> None))
                     (elements ({[1; 2]} : gset nat)) /\
    Forall (fun d => payload d = pause_event) sends /\
    (forall i d, sends !! i = Some d ->
                 delivered d = closed_for 2 (length (wire m) + i) (to d)) /\
    (forall ws, ws ∈ failed sends -> user_data m' !! ws = None) /\
    registry_ok ∅ m'.
Proof.
  apply (broadcast_fan_out (closed_for 2) 1000 "abc12345" pause_event None
           (run_ops fixed_date all_open accepts_all 1000
              [Connect 1 "abc12345" None; Connect 2 "abc12345" (Some "bob")]
              empty_manager)
           {[1; 2]}).
  - exact classroom_ok.
  - vm_compute. lia.
  - vm_compute. reflexivity.
Defined.

(** C5, refuted as stated: after the fragment ["The wave. Next"] the
    sentence buffer does not end in a terminator, and still it is scanned
    (the wave cue is yielded), a pause is yielded and the buffer is
    emptied. *)
Lemma boundary_inside_fragment :
  ends_in_terminator ("" ++ "The wave. Next") = false /\
  process_chunk steady_clock initial_buffers "The wave. Next" =
    ([ text_event "The" 0; text_event "wave." 1;
       visual_cue_event (cue "animate" [("type", JStr "wave_motion")]);
       pause_event ],
     Buffers "The wave. Next" "" "Next" 2).
Proof. vm_compute. split; reflexivity. Qed.

(** C6, refuted as stated: the cue of a sentence about a graph has the
    action [show_graph]; the dispatcher derives nothing from it, and no
    [visual_update] reaches the session although the cue itself does. *)
Lemma graph_cue_has_no_update :
  let m := run_ops fixed_date all_open accepts_all 1000
             [Connect 1 "abc12345" None; Connect 2 "abc12345" (Some "bob")]
             empty_manager in
  let c := cue "show_graph" [("type", JStr "function_graph")] in
  let m' := exec (handle_question steady_clock (says [Some "Look at this graph."])
                    all_open 1000 1 "abc12345" (ask "Show me")) m in
  _extract_visual_cue "Look at this graph." = Some c /\
  _process_visual_cue (visual_cue_event c) = None /\
  In (Delivery 1 (visual_cue_event c) true) (wire m') /\
  List.filter (fun d => has_type "visual_update" (payload d)) (wire m') = [].
Proof.
  vm_compute. repeat split; try reflexivity.
  do 14 right. left. reflexivity.
Qed.

(** C4, on the code: a listener alone in a session asks a question and its
    channel breaks while the answer is streamed. The failed delivery removes
    the listener and, with it, the session; when the run is over, clearing
    [is_teaching] raises [KeyError], the handler's own clearing raises it
    again, and [handle_message] raises to its caller. *)
Theorem teaching_end_without_session :
  let m := run_ops fixed_date all_open accepts_all 1000
             [Connect 1 "abc12345" None] empty_manager in
  let run := handle_message steady_clock fixed_date (says [Some "Hi there."])
               no_visuals plain_str (open_until 3) 1000 1 (ask "What?") in
  result run m = Raise KeyError /\
  session_states (exec run m) !! "abc12345" = None /\
  active_sessions (exec run m) !! "abc12345" = None.
Proof. vm_compute. repeat split; reflexivity. Qed.

(** C7, on the code: the word left in the buffer when the source is
    exhausted is yielded without the emphasis check, so a final "gravity"
    gets its [text] event and no [emphasis] event, although the table lists
    it as of high importance. *)
Theorem last_word_not_emphasised :
  _check_emphasis "gravity" = Some "high" /\
  stream_explanation steady_clock (says [Some "It is"; Some " gravity"])
    (JStr "What pulls?") JNull =
    [ start_event (JStr "What pulls?");
      text_event "It" 0; text_event "is" 1;
      flush_event "gravity";
      complete_event "It is gravity" ].
Proof. vm_compute. split; reflexivity. Qed.

(** ** The further properties on concrete inputs *)

(** One listener alone in its session. *)
Lemma solo_ok :
  registry_ok ∅
    (run_ops fixed_date all_open accepts_all 1000
       [Connect 1 "abc12345" None] empty_manager).
Proof.
  apply run_ops_ok.
  - apply registry_ok_empty.
  - vm_compute. repeat split; reflexivity.
  - vm_compute. lia.
Qed.

Lemma connect_welcomes_witness :
  let m := run_ops fixed_date all_open accepts_all 1000
             [Connect 1 "abc12345" None; Connect 2 "abc12345" (Some "bob")]
             empty_manager in
  let L0 := default ∅ (active_sessions m !! "abc12345") in
  let n := (Z.of_nat (size L0) + 1)%Z in
  exists (m' : manager) (notified : list nat),
    connect fixed_date all_open accepts_all 1000 3 "abc12345" None m = (Ok tt, m') /\
    active_sessions m' !! "abc12345" = Some ({[3]} ∪ L0) /\
    participants <$> (session_states m' !! "abc12345") = Some n /\
    session_id <$> (user_data m' !! 3) = Some "abc12345" /\
    wire m' = (wire m ++ Delivery 3 (connected_event "abc12345" n) true
                 :: deliveries notified (user_joined_event n))%list /\
    notified ≡ₚ elements L0.
Proof.
  apply (connect_welcomes fixed_date all_open accepts_all 1000 3 "abc12345" None).
  - exact classroom_ok.
  - vm_compute. reflexivity.
  - reflexivity.
  - intros k w. reflexivity.
Defined.

Lemma disconnect_last_listener_witness :
  let m := run_ops fixed_date all_open accepts_all 1000
             [Connect 1 "abc12345" None] empty_manager in
  disconnect (closed_for 1) 1000 1 m =
    (Ok tt, Manager (delete "abc12345" (active_sessions m))
                    (delete "abc12345" (session_states m))
                    (delete 1 (user_data m)) (wire m)).
Proof.
  apply (disconnect_last_listener (closed_for 1) 1000 1
           (UserInfo None "abc12345" "2024-01-01T00:00:00")).
  - discriminate.
  - exact solo_ok.
  - vm_compute. reflexivity.
  - vm_compute. reflexivity.
Defined.

Lemma disconnect_notifies_rest_witness :
  let m := run_ops fixed_date all_open accepts_all 1000
             [Connect 1 "abc12345" None; Connect 2 "abc12345" (Some "bob")]
             empty_manager in
  let n := Z.of_nat (size (({[1; 2]} : gset nat) ∖ {[1]})) in
  exists m',
    disconnect all_open 1000 1 m = (Ok tt, m') /\
    active_sessions m' = <["abc12345" := {[1; 2]} ∖ {[1]}]> (active_sessions m) /\
    participants <$> (session_states m' !! "abc12345") = Some n /\
    user_data m' = delete 1 (user_data m) /\
    wire m' = (wire m ++ deliveries (elements (({[1; 2]} : gset nat) ∖ {[1]}))
                           (user_left_event n))%list.
Proof.
  apply (disconnect_notifies_rest all_open 1000 1
           (UserInfo None "abc12345" "2024-01-01T00:00:00") {[1; 2]}).
  - discriminate.
  - exact classroom_ok.
  - intros k w. reflexivity.
  - vm_compute. reflexivity.
  - vm_compute. reflexivity.
  - intros Hempty. apply (f_equal size) in Hempty. vm_compute in Hempty. discriminate.
Defined.

Lemma connect_disconnect_round_trip_witness :
  let m := run_ops fixed_date all_open accepts_all 1000
             [Connect 1 "abc12345" None; Connect 2 "abc12345" (Some "bob")]
             empty_manager in
  let both := bind (connect fixed_date all_open accepts_all 1000 3 "xyz" None)
                   (fun _ => disconnect all_open 1000 3) in
  let m' := exec both m in
  result both m = Ok tt /\
  active_sessions m' = active_sessions m /\
  session_states m' = session_states m /\
  user_data m' = user_data m.
Proof.
  apply (connect_disconnect_round_trip fixed_date all_open accepts_all 1000 3 "xyz" None).
  - discriminate.
  - exact classroom_ok.
  - vm_compute. reflexivity.
  - reflexivity.
  - intros k w. reflexivity.
Defined.

Lemma handle_message_keeps_registry_witness :
  let m := run_ops fixed_date all_open accepts_all 1000
             [Connect 1 "abc12345" None; Connect 2 "abc12345" (Some "bob")]
             empty_manager in
  let run := handle_message steady_clock fixed_date (says [Some "Hi there."])
               no_visuals plain_str (closed_for 2) 1000 1 (ask "What?") in
  registry_ok ∅ (exec run m) /\ user_data (exec run m) ⊆ user_data m.
Proof.
  apply (handle_message_keeps_registry steady_clock fixed_date (says [Some "Hi there."])
           no_visuals plain_str (closed_for 2) 1000 1 (ask "What?")).
  - exact classroom_ok.
  - vm_compute. lia.
Defined.

Lemma classroom_websocket_unregisters_witness :
  let m := run_ops fixed_date all_open accepts_all 1000
             [Connect 1 "abc12345" None; Connect 2 "abc12345" (Some "bob")]
             empty_manager in
  exists m',
    classroom_websocket steady_clock fixed_date (says [Some "Hi there."])
      no_visuals plain_str all_open accepts_all 1000 3 "abc12345" None
      [ask "What?"; ask ""] m = (Ok tt, m') /\
    registry_ok ∅ m' /\
    user_data m' !! 3 = None.
Proof.
  apply (classroom_websocket_unregisters steady_clock fixed_date
           (says [Some "Hi there."]) no_visuals plain_str all_open accepts_all
           1000 3 "abc12345" None [ask "What?"; ask ""]).
  - exact classroom_ok.
  - vm_compute. reflexivity.
  - vm_compute. lia.
  - vm_compute. reflexivity.
Defined.

Lemma classroom_websocket_failed_welcome_witness :
  let m := run_ops fixed_date all_open accepts_all 1000
             [Connect 1 "abc12345" None; Connect 2 "abc12345" (Some "bob")]
             empty_manager in
  let route := classroom_websocket steady_clock fixed_date (says [Some "Hi there."])
                 no_visuals plain_str (closed_for 3) accepts_all 1000 3 "abc12345"
                 None [ask "What?"] in
  let m' := exec route m in
  result route m = Raise ChannelError /\
  session_id <$> (user_data m' !! 3) = Some "abc12345" /\
  exists L, active_sessions m' !! "abc12345" = Some L /\ 3 ∈ L.
Proof.
  apply (classroom_websocket_failed_welcome steady_clock fixed_date
           (says [Some "Hi there."]) no_visuals plain_str (closed_for 3) accepts_all
           1000 3 "abc12345" None [ask "What?"]).
  - exact classroom_ok.
  - vm_compute. reflexivity.
  - reflexivity.
  - vm_compute. reflexivity.
Defined.

Lemma unknown_command_ignored_witness :
  let m := run_ops fixed_date all_open accepts_all 1000
             [Connect 1 "abc12345" None] empty_manager in
  handle_message steady_clock fixed_date (says [Some "Hi there."]) no_visuals
    plain_str all_open 1000 1 [("type", JStr "raise_hand")] m = (Ok tt, m).
Proof.
  apply (unknown_command_ignored steady_clock fixed_date (says [Some "Hi there."])
           no_visuals plain_str all_open 1000 1 [("type", JStr "raise_hand")]).
  intros t Ht. simpl in Ht.
  repeat (destruct Ht as [<-|Ht]; [vm_compute; discriminate|]).
  destruct Ht.
Defined.

Lemma status_reflects_listeners_witness :
  let m := run_ops fixed_date all_open accepts_all 1000
             [Connect 1 "abc12345" None; Connect 2 "abc12345" (Some "bob")]
             empty_manager in
  match active_sessions m !! "abc12345" with
  | Some L =>
      get (get_session_status "abc12345" m) "active" = JBool true /\
      get (get_session_status "abc12345" m) "participants" = JInt (Z.of_nat (size L)) /\
      0 < size L
  | None => get (get_session_status "abc12345" m) "active" = JBool false
  end.
Proof.
  apply (status_reflects_listeners "abc12345"). exact classroom_ok.
Defined.

Lemma pause_then_resume_witness :
  let m := run_ops fixed_date all_open accepts_all 1000
             [Connect 1 "abc12345" None; Connect 2 "abc12345" (Some "bob")]
             empty_manager in
  let s := SessionState "2024-01-01T00:00:00" JNull false 2 None in
  bind (handle_pause all_open 1000 "abc12345")
       (fun _ => handle_resume all_open 1000 "abc12345") m =
    (Ok tt,
     Manager (active_sessions m)
             (<["abc12345" := set_is_paused false s]> (session_states m))
             (user_data m)
             (wire m ++ deliveries (elements ({[1; 2]} : gset nat)) session_paused_event
                     ++ deliveries (elements ({[1; 2]} : gset nat)) session_resumed_event)).
Proof.
  apply (pause_then_resume all_open 1000 "abc12345" {[1; 2]}
           (SessionState "2024-01-01T00:00:00" JNull false 2 None)).
  - intros k w. reflexivity.
  - vm_compute. reflexivity.
  - vm_compute. reflexivity.
Defined.

Lemma ask_question_reaches_everyone_witness :
  let m := run_ops fixed_date all_open accepts_all 1000
             [Connect 1 "abc12345" None; Connect 2 "abc12345" (Some "bob")]
             empty_manager in
  let s := SessionState "2024-01-01T00:00:00" JNull false 2 None in
  let question := get_or (ask "What is gravity?") "question" (JStr "") in
  let subject := get (ask "What is gravity?") "subject" in
  handle_question steady_clock (says [Some "Gravity is a force."]) all_open 1000
    1 "abc12345" (ask "What is gravity?") m =
    (Ok tt,
     Manager (active_sessions m)
             (<["abc12345" := SessionState (created_at s) question false
                                (participants s) (is_paused s)]> (session_states m))
             (user_data m)
             (wire m ++ flat_map (deliveries (elements ({[1; 2]} : gset nat)))
                          (teaching_start_event question subject
                           :: relayed (stream_explanation steady_clock
                                         (says [Some "Gravity is a force."])
                                         question subject)
                           ++ [teaching_end_event]))).
Proof.
  apply (ask_question_reaches_everyone steady_clock (says [Some "Gravity is a force."])
           all_open 1000 1 "abc12345" (ask "What is gravity?") {[1; 2]}
           (SessionState "2024-01-01T00:00:00" JNull false 2 None)).
  - intros k w. reflexivity.
  - vm_compute. reflexivity.
  - vm_compute. reflexivity.
  - reflexivity.
Defined.

Lemma paced_words_are_clean_witness :
  Forall (fun ev => has_type "text" ev = true ->
                    exists w, content_of ev = w ++ " " /\ w <> "" /\ spaceless w = true)
         (fst (fst (pace_words steady_clock "Gravity is   a" 0))) /\
  spaceless (snd (fst (pace_words steady_clock "Gravity is   a" 0))) = true.
Proof.
  apply (paced_words_are_clean steady_clock "Gravity is   a" 0). reflexivity.
Defined.

Lemma trailing_space_is_lost_witness :
  let held := word_buffer initial_buffers ++ "gravity" in
  List.filter (has_type "text")
    (fst (process_chunk steady_clock initial_buffers ("gravity" ++ " "))) = [] /\
  word_buffer (snd (process_chunk steady_clock initial_buffers ("gravity" ++ " "))) = held.
Proof.
  apply (trailing_space_is_lost steady_clock initial_buffers "gravity").
  - discriminate.
  - reflexivity.
Defined.

Lemma emphasis_ignores_case_and_punctuation_witness :
  _check_emphasis ("..." ++ "GRAVITY" ++ "?!") = _check_emphasis (PyStr.lower "GRAVITY").
Proof.
  apply (emphasis_ignores_case_and_punctuation "..." "GRAVITY" "?!"); reflexivity.
Defined.

Lemma animate_cues_have_descriptors_witness :
  exists kind descriptor,
    get (as_dict (get (cue "animate" [("type", JStr "apple_falling")]) "data")) "type"
      = JStr kind /\
    table_get kind animations = Some descriptor /\
    _get_animation_data (JStr kind) = descriptor /\
    descriptor <> generic_animation.
Proof.
  apply (animate_cues_have_descriptors "See how the apple falls."
           (cue "animate" [("type", JStr "apple_falling")])); reflexivity.
Defined.

Lemma quick_teach_answers_in_order_witness :
  quick_teach_websocket steady_clock (says [Some "Hi there."]) all_open accepts_all
    7 [ask "What?"; ask ""] empty_manager
    = (Ok tt,
       on_air empty_manager
         (flat_map (deliveries [7])
            (flat_map (quick_answer steady_clock (says [Some "Hi there."]))
               [ask "What?"; ask ""]))).
Proof.
  apply (quick_teach_answers_in_order steady_clock (says [Some "Hi there."]) all_open
           accepts_all 7 [ask "What?"; ask ""] empty_manager).
  - reflexivity.
  - intros k w. reflexivity.
Defined.

Lemma feedback_is_private_witness :
  let m := run_ops fixed_date all_open accepts_all 1000
             [Connect 1 "abc12345" None; Connect 2 "abc12345" (Some "bob")]
             empty_manager in
  let message := [("type", JStr "feedback"); ("feedback_type", JStr "too_fast")] in
  handle_message steady_clock fixed_date (says [Some "Hi there."]) no_visuals
    plain_str all_open 1000 2 message m =
    (if all_open (length (wire m)) 2 then Ok tt else Raise ChannelError,
     on_air m [Delivery 2 feedback_received_event (all_open (length (wire m)) 2)]).
Proof.
  apply (feedback_is_private steady_clock fixed_date (says [Some "Hi there."])
           no_visuals plain_str all_open 1000 2
           (UserInfo (Some "bob") "abc12345" "2024-01-01T00:00:00")).
  - vm_compute. reflexivity.
  - reflexivity.
Defined.

Lemma chat_reaches_everyone_witness :
  let m := run_ops fixed_date all_open accepts_all 1000
             [Connect 1 "abc12345" None; Connect 2 "abc12345" (Some "bob")]
             empty_manager in
  let message := [("type", JStr "chat"); ("message", JStr "Can you explain more?")] in
  handle_message steady_clock fixed_date (says [Some "Hi there."]) no_visuals
    plain_str all_open 1000 1 message m =
    (Ok tt,
     on_air m (deliveries (elements ({[1; 2]} : gset nat))
                 (chat_message_event JNull (get_or message "message" (JStr ""))
                    (fixed_date (length (wire m)))))).
Proof.
  apply (chat_reaches_everyone steady_clock fixed_date (says [Some "Hi there."])
           no_visuals plain_str all_open 1000 1
           (UserInfo None "abc12345" "2024-01-01T00:00:00")
           [("type", JStr "chat"); ("message", JStr "Can you explain more?")] {[1; 2]}).
  - intros k w. reflexivity.
  - vm_compute. reflexivity.
  - vm_compute. reflexivity.
  - reflexivity.
Defined.

Lemma visual_request_outcomes_witness :
  let m := run_ops fixed_date all_open accepts_all 1000
             [Connect 1 "abc12345" None; Connect 2 "abc12345" (Some "bob")]
             empty_manager in
  let message := [("type", JStr "request_visual"); ("concept", JStr "gravity")] in
  let visual_type := get_or message "visual_type" (JStr "animation") in
  let concept := get_or message "concept" (JStr "") in
  handle_message steady_clock fixed_date (says [Some "Hi there."]) no_visuals
    plain_str all_open 1000 1 message m =
    (Ok tt,
     on_air m (deliveries (elements ({[1; 2]} : gset nat))
                 (visual_loading_event plain_str visual_type concept)
               ++ match no_visuals concept visual_type with
                  | Some res => deliveries (elements ({[1; 2]} : gset nat))
                                  (visual_ready_event res concept)
                  | None => [Delivery 1 visual_failed_event true]
                  end)).
Proof.
  apply (visual_request_outcomes steady_clock fixed_date (says [Some "Hi there."])
           no_visuals plain_str all_open 1000 1
           (UserInfo None "abc12345" "2024-01-01T00:00:00")
           [("type", JStr "request_visual"); ("concept", JStr "gravity")] {[1; 2]}).
  - intros k w. reflexivity.
  - vm_compute. reflexivity.
  - vm_compute. reflexivity.
  - reflexivity.
Defined.

Lemma every_cue_is_followed_by_a_pause_witness :
  exists after',
    [pause_event; flush_event "wave."; complete_event "The wave."]
    = pause_event :: after'.
Proof.
  apply (every_cue_is_followed_by_a_pause steady_clock (says [Some "The wave."])
           (JStr "What is a wave?") JNull
           [start_event (JStr "What is a wave?"); text_event "The" 0]
           [pause_event; flush_event "wave."; complete_event "The wave."]
           (visual_cue_event (cue "animate" [("type", JStr "wave_motion")]))).
  - vm_compute. reflexivity.
  - reflexivity.
Defined.
